(** * libkefir: the TC flower rule parser

    A shallow embedding of [src/libkefir_parse_tc.c] over the data model of
    [src/libkefir_internals.h], and the properties of the rule parser
    [tcflower_parse_rule] established on it.

    Conventions of the embedding:
    - the token cursor ([argv], [argc]) is embedded twice.  The first
      embedding takes the cursor for the list of the tokens that remain, and
      [argc] for its length: it is the parser on arrays whose size fits the
      [unsigned int] that [argc] is.  The second one, in module [U32], keeps
      [argv] and the 32-bit [argc] apart, as the code does: [argc = rule_size]
      keeps the size modulo 2^32, and [NEXT_ARG] decrements modulo 2^32.  The
      two agree on arrays of fewer than 2^32 tokens ([u32_parse_rule_agree]),
      and on any array the second runs the first on the tokens that the
      counter accounts for ([u32_parse_rule_unfold]).  A read or a step past
      the last token, which the C code would perform outside the array, is
      the error [CursorOverrun];
    - a C function returning [0] / [-1] (or a pointer / [NULL]) returns
      [Ok] / [Err], the error naming the [err_fail] message that was emitted;
    - the value codec of [libkefir_parse.h] and the allocator are not part of
      the two source files: they are parameters of the development. *)

From Stdlib Require Import ZArith String Ascii.
From stdpp Require Import base list strings.
From Equations Require Import Equations.

Local Open Scope string_scope.
Local Open Scope list_scope.

(** ** Data model ([libkefir_internals.h]) *)

Definition KEFIR_MAX_MATCH_PER_RULE : nat := 5.

Inductive enum_comp_operator :=
| OPER_EQUAL
| OPER_LT
| OPER_LEQ
| OPER_GT
| OPER_GEQ.

Inductive enum_action_code :=
| ACTION_CODE_DROP
| ACTION_CODE_PASS.

Inductive enum_match_type :=
| KEFIR_MATCH_TYPE_UNSPEC
| KEFIR_MATCH_TYPE_ETHER_SRC
| KEFIR_MATCH_TYPE_ETHER_DST
| KEFIR_MATCH_TYPE_ETHER_ANY
| KEFIR_MATCH_TYPE_ETHER_PROTO
| KEFIR_MATCH_TYPE_IP_4_SRC
| KEFIR_MATCH_TYPE_IP_4_DST
| KEFIR_MATCH_TYPE_IP_4_ANY
| KEFIR_MATCH_TYPE_IP_4_TOS
| KEFIR_MATCH_TYPE_IP_4_TTL
| KEFIR_MATCH_TYPE_IP_4_FLAGS
| KEFIR_MATCH_TYPE_IP_4_L4PROTO
| KEFIR_MATCH_TYPE_IP_4_L4DATA
| KEFIR_MATCH_TYPE_IP_4_L4PORT_SRC
| KEFIR_MATCH_TYPE_IP_4_L4PORT_DST
| KEFIR_MATCH_TYPE_IP_4_L4PORT_ANY
| KEFIR_MATCH_TYPE_IP_4_SPI
| KEFIR_MATCH_TYPE_IP_4_TCP_FLAGS
| KEFIR_MATCH_TYPE_IP_6_SRC
| KEFIR_MATCH_TYPE_IP_6_DST
| KEFIR_MATCH_TYPE_IP_6_ANY
| KEFIR_MATCH_TYPE_IP_6_TOS
| KEFIR_MATCH_TYPE_IP_6_TTL
| KEFIR_MATCH_TYPE_IP_6_FLAGS
| KEFIR_MATCH_TYPE_IP_6_L4PROTO
| KEFIR_MATCH_TYPE_IP_6_L4DATA
| KEFIR_MATCH_TYPE_IP_6_L4PORT_SRC
| KEFIR_MATCH_TYPE_IP_6_L4PORT_DST
| KEFIR_MATCH_TYPE_IP_6_L4PORT_ANY
| KEFIR_MATCH_TYPE_IP_6_SPI
| KEFIR_MATCH_TYPE_IP_6_TCP_FLAGS
| KEFIR_MATCH_TYPE_IP_ANY_SRC
| KEFIR_MATCH_TYPE_IP_ANY_DST
| KEFIR_MATCH_TYPE_IP_ANY_ANY
| KEFIR_MATCH_TYPE_IP_ANY_TOS
| KEFIR_MATCH_TYPE_IP_ANY_TTL
| KEFIR_MATCH_TYPE_IP_ANY_FLAGS
| KEFIR_MATCH_TYPE_IP_ANY_L4PROTO
| KEFIR_MATCH_TYPE_IP_ANY_L4DATA
| KEFIR_MATCH_TYPE_IP_ANY_L4PORT_SRC
| KEFIR_MATCH_TYPE_IP_ANY_L4PORT_DST
| KEFIR_MATCH_TYPE_IP_ANY_L4PORT_ANY
| KEFIR_MATCH_TYPE_IP_ANY_SPI
| KEFIR_MATCH_TYPE_IP_ANY_TCP_FLAGS
| KEFIR_MATCH_TYPE_VLAN_ID
| KEFIR_MATCH_TYPE_VLAN_PRIO
| KEFIR_MATCH_TYPE_VLAN_ETHERTYPE
| KEFIR_MATCH_TYPE_CVLAN_ID
| KEFIR_MATCH_TYPE_CVLAN_PRIO
| KEFIR_MATCH_TYPE_CVLAN_ETHERTYPE
| KEFIR_MATCH_TYPE_MPLS_LABEL
| KEFIR_MATCH_TYPE_MPLS_TC
| KEFIR_MATCH_TYPE_MPLS_BOS
| KEFIR_MATCH_TYPE_MPLS_TTL
| KEFIR_MATCH_TYPE_ICMP_TYPE
| KEFIR_MATCH_TYPE_ICMP_CODE
| KEFIR_MATCH_TYPE_ARP_TIP
| KEFIR_MATCH_TYPE_ARP_SIP
| KEFIR_MATCH_TYPE_ARP_OP
| KEFIR_MATCH_TYPE_ARP_THA
| KEFIR_MATCH_TYPE_ARP_SHA
| KEFIR_MATCH_TYPE_ENC_KEY_ID
| KEFIR_MATCH_TYPE_ENC_DST_ID
| KEFIR_MATCH_TYPE_ENC_SRC_ID
| KEFIR_MATCH_TYPE_ENC_DST_PORT
| KEFIR_MATCH_TYPE_ENC_TOS
| KEFIR_MATCH_TYPE_ENC_TTL
| KEFIR_MATCH_TYPE_GENEVE_OPTIONS.

Inductive enum_value_format :=
| KEFIR_VAL_FMT_BIT
| KEFIR_VAL_FMT_UINT3
| KEFIR_VAL_FMT_UINT6
| KEFIR_VAL_FMT_UINT8
| KEFIR_VAL_FMT_UINT12
| KEFIR_VAL_FMT_UINT16
| KEFIR_VAL_FMT_UINT20
| KEFIR_VAL_FMT_UINT32
| KEFIR_VAL_FMT_MAC_ADDR
| KEFIR_VAL_FMT_IPV4_ADDR
| KEFIR_VAL_FMT_IPV6_ADDR.

(** The parser spells a few enumerators with the [KEFIR_] prefix and the
    service-VLAN kinds as [SVLAN]; they are the enumerators above. *)
Definition KEFIR_OPER_EQUAL := OPER_EQUAL.
Definition KEFIR_ACTION_CODE_DROP := ACTION_CODE_DROP.
Definition KEFIR_ACTION_CODE_PASS := ACTION_CODE_PASS.
Definition KEFIR_MATCH_TYPE_SVLAN_ID := KEFIR_MATCH_TYPE_VLAN_ID.
Definition KEFIR_MATCH_TYPE_SVLAN_PRIO := KEFIR_MATCH_TYPE_VLAN_PRIO.
Definition KEFIR_MATCH_TYPE_SVLAN_ETHERTYPE := KEFIR_MATCH_TYPE_VLAN_ETHERTYPE.

(** The anonymous union of [struct kefir_value]: one constructor per member,
    holding what was stored through that member.  Addresses are the bytes in
    memory order (the parser hands [ipv4.s_addr] and [ipv6.__in6_u.__u6_addr32]
    to the codec as plain output pointers); zero-initialised storage is
    [data_raw] with sixteen zero bytes. *)
Inductive kefir_value_data :=
| data_eth (ether_addr_octet : list Z)
| data_ipv6 (s6_addr : list Z)
| data_ipv4 (s_addr : list Z)
| data_u32 (u32 : Z)
| data_u16 (u16 : Z)
| data_u8 (u8 : Z)
| data_raw (raw : list Z).

Record kefir_value := {
  data : kefir_value_data;
  format : enum_value_format;
}.

Record kefir_match := {
  match_type : enum_match_type;
  comp_operator : enum_comp_operator;
  value : kefir_value;
  max_value : list Z;
  mask : list Z;
  flags : Z;
}.

Record kefir_rule := {
  matches : list kefir_match;
  action : enum_action_code;
}.

(** [{0}]: every byte of the object is zero, so every enumeration field holds
    its first enumerator. *)
Definition zero_bytes (n : nat) : list Z := replicate n 0%Z.

Definition zero_value : kefir_value :=
  {| data := data_raw (zero_bytes 16); format := KEFIR_VAL_FMT_BIT |}.

Definition zero_match : kefir_match :=
  {| match_type := KEFIR_MATCH_TYPE_UNSPEC;
     comp_operator := OPER_EQUAL;
     value := zero_value;
     max_value := zero_bytes 16;
     mask := zero_bytes 16;
     flags := 0 |}.

#[global] Instance kefir_match_inhabited : Inhabited kefir_match :=
  populate zero_match.

#[global] Instance enum_match_type_eq_dec : EqDecision enum_match_type.
Proof. solve_decision. Defined.

#[global] Instance enum_action_code_eq_dec : EqDecision enum_action_code.
Proof. solve_decision. Defined.

(** Field assignments [match->f = x].  The parser names the union members
    directly under [value] ([match->value.u16]); they are the members of
    [value.data], and [value.format] is not written. *)
Definition set_match_type (t : enum_match_type) (m : kefir_match) : kefir_match :=
  {| match_type := t; comp_operator := comp_operator m; value := value m;
     max_value := max_value m; mask := mask m; flags := flags m |}.

Definition set_comp_operator (o : enum_comp_operator) (m : kefir_match) : kefir_match :=
  {| match_type := match_type m; comp_operator := o; value := value m;
     max_value := max_value m; mask := mask m; flags := flags m |}.

Definition set_value_data (d : kefir_value_data) (m : kefir_match) : kefir_match :=
  {| match_type := match_type m; comp_operator := comp_operator m;
     value := {| data := d; format := format (value m) |};
     max_value := max_value m; mask := mask m; flags := flags m |}.

Definition set_mask (k : list Z) (m : kefir_match) : kefir_match :=
  {| match_type := match_type m; comp_operator := comp_operator m; value := value m;
     max_value := max_value m; mask := k; flags := flags m |}.

(** ** Errors and the cursor monad *)

(** The three places that report a bad number of arguments. *)
Inductive count_site :=
| rule_args     (* "bad number of arguments" *)
| match_args    (* "bad number of arguments for parsing match value" *)
| action_args.  (* "bad number of arguments for parsing action" *)

Inductive tc_error :=
| BadArgumentCount (site : count_site)
| ProtocolKeywordExpected              (* "failed to parse protocol" *)
| UnsupportedProtocol (tok : string)   (* "unsupported protocol %s", ethproto *)
| UnsupportedProtocolNumber (tok : string) (* "unsupported protocol %s", ipproto *)
| UnsupportedMatchKeyword (tok : string)   (* "unsupported match keyword %s" *)
| MalformedValue (tok : string)        (* the value codec rejected the token *)
| MissingRequiredMatch                 (* "src_port/dst_port requires ip_proto" *)
| MissingActionKeyword                 (* "failed to parse action for the rule" *)
| UnsupportedActionCode                (* "unsupported action code %d" *)
| AllocationFailure                    (* "failed to allocate memory for rule" *)
| CursorOverrun.  (* no message: [argv] moved or read past the token array *)

Inductive result (A : Type) :=
| Ok (a : A)
| Err (e : tc_error).
Arguments Ok {A} a.
Arguments Err {A} e.

(** The cursor over an array whose size fits the counter: the tokens that
    remain, [argc] being their number.  Module [U32] further down has the
    cursor with the 32-bit counter for arrays of any size. *)
Definition cursor := list string.

Definition parser (A : Type) : Type := cursor -> result (A * cursor).

#[global] Instance parser_ret : MRet parser :=
  fun A (a : A) c => Ok (a, c).

#[global] Instance parser_bind : MBind parser :=
  fun A B (k : A -> parser B) (m : parser A) c =>
    match m c with
    | Ok (a, c') => k a c'
    | Err e => Err e
    end.

Definition fail {A} (e : tc_error) : parser A := fun _ => Err e.

(** [*argc] *)
Definition argc : parser nat := fun c => Ok (length c, c).

(** [**argv] *)
Definition cur : parser string :=
  fun c => match c with
           | tok :: _ => Ok (tok, c)
           | [] => Err CursorOverrun
           end.

(** [NEXT_ARG()] *)
Definition NEXT_ARG : parser unit :=
  fun c => match c with
           | _ :: c' => Ok (tt, c')
           | [] => Err CursorOverrun
           end.

(** A call into the value codec on token [tok]: a non-zero return makes the
    caller return [-1] at once. *)
Definition codec_call {A} (tok : string) (r : option A) : parser A :=
  match r with
  | Some a => mret a
  | None => fail (MalformedValue tok)
  end.

(** ** The value codec ([libkefir_parse.h]) *)

(** The codec functions take the token, write the parsed value through
    their output pointer and, for the [_slash_mask] forms, write into the
    caller's 16-byte mask buffer.  [Some] is a zero return and carries what was
    written (for the mask: the buffer afterwards, given the buffer before). *)
Class value_codec := {
  parse_uint : string -> nat -> option Z;
  parse_check_and_store_uint : Z -> nat -> bool -> option Z;
  parse_uint_slash_mask : string -> nat -> list Z -> option (Z * list Z);
  parse_eth_addr_slash_mask : string -> list Z -> option (list Z * list Z);
  parse_ipv4_addr_slash_mask : string -> list Z -> option (list Z * list Z);
  parse_ipv6_addr_slash_mask : string -> list Z -> option (list Z * list Z);
}.

(** [netinet/in.h] *)
Definition IPPROTO_ICMP : Z := 1.
Definition IPPROTO_TCP : Z := 6.
Definition IPPROTO_UDP : Z := 17.
Definition IPPROTO_ICMPV6 : Z := 58.
Definition IPPROTO_SCTP : Z := 132.

(** ** The parser ([libkefir_parse_tc.c]) *)

Inductive ether_proto_type :=
| TCFLOWER_ETH_PROTO_UNSPEC
| TCFLOWER_ETH_PROTO_IPV4
| TCFLOWER_ETH_PROTO_IPV6
| TCFLOWER_ETH_PROTO_OTHER.

#[global] Instance ether_proto_type_eq_dec : EqDecision ether_proto_type.
Proof. solve_decision. Defined.

Definition tcflower_parse_ethproto : parser ether_proto_type :=
  tok ← cur;
  ethtype ← (if (tok =? "ip") || (tok =? "ipv4") then mret TCFLOWER_ETH_PROTO_IPV4
             else if tok =? "ipv6" then mret TCFLOWER_ETH_PROTO_IPV6
             else fail (UnsupportedProtocol tok));
  NEXT_ARG;;
  mret ethtype.

(** [calloc] either returns [NULL] or zero-filled storage. *)
Class allocator := {
  calloc_null : bool;
}.

(** A callee that does not touch the cursor, and the run of a parser on a
    token array. *)
Definition lift {A} (r : result A) : parser A :=
  fun c => match r with
           | Ok a => Ok (a, c)
           | Err e => Err e
           end.

Definition run {A} (p : parser A) (c : cursor) : result A :=
  match p c with
  | Ok (a, _) => Ok a
  | Err e => Err e
  end.

Section Parser.
Context {codec : value_codec} {libc : allocator}.

Definition tcflower_parse_ipproto (input : string) : result Z :=
  let res :=
    if input =? "tcp" then parse_check_and_store_uint IPPROTO_TCP 8 false
    else if input =? "udp" then parse_check_and_store_uint IPPROTO_UDP 8 false
    else if input =? "sctp" then parse_check_and_store_uint IPPROTO_SCTP 8 false
    else if input =? "icmp" then parse_check_and_store_uint IPPROTO_ICMP 8 false
    else if input =? "icmpv6" then parse_check_and_store_uint IPPROTO_ICMPV6 8 false
    else parse_uint input 8 in
  match res with
  | Some v => Ok v
  | None => Err (UnsupportedProtocolNumber input)
  end.

(** [match0] is the slot [*match] as the caller hands it over; the result is
    the slot on a zero return. *)
Definition tcflower_parse_match (ethtype : ether_proto_type)
    (match0 : kefir_match) : parser kefir_match :=
  let ipv6_flow := bool_decide (ethtype = TCFLOWER_ETH_PROTO_IPV6) in
  n ← argc;
  if (n <? 2)%nat then fail (BadArgumentCount match_args) else
  let m := set_comp_operator KEFIR_OPER_EQUAL match0 in
  kw ← cur;
  m ← (if kw =? "dst_mac" then
         NEXT_ARG;; tok ← cur;
         '(a, k) ← codec_call tok (parse_eth_addr_slash_mask tok (mask m));
         mret (set_match_type KEFIR_MATCH_TYPE_ETHER_DST
                 (set_mask k (set_value_data (data_eth a) m)))
       else if kw =? "src_mac" then
         NEXT_ARG;; tok ← cur;
         '(a, k) ← codec_call tok (parse_eth_addr_slash_mask tok (mask m));
         mret (set_match_type KEFIR_MATCH_TYPE_ETHER_SRC
                 (set_mask k (set_value_data (data_eth a) m)))
       else if kw =? "vlan_id" then
         NEXT_ARG;; tok ← cur;
         v ← codec_call tok (parse_uint tok 12);
         mret (set_match_type KEFIR_MATCH_TYPE_SVLAN_ID
                 (set_value_data (data_u16 v) m))
       else if kw =? "vlan_prio" then
         NEXT_ARG;; tok ← cur;
         v ← codec_call tok (parse_uint tok 3);
         mret (set_match_type KEFIR_MATCH_TYPE_SVLAN_PRIO
                 (set_value_data (data_u8 v) m))
       else if kw =? "vlan_ethtype" then
         NEXT_ARG;; tok ← cur;
         v ← codec_call tok (parse_uint tok 16);
         mret (set_match_type KEFIR_MATCH_TYPE_SVLAN_ETHERTYPE
                 (set_value_data (data_u16 v) m))
       else if kw =? "cvlan_id" then
         NEXT_ARG;; tok ← cur;
         v ← codec_call tok (parse_uint tok 12);
         mret (set_match_type KEFIR_MATCH_TYPE_CVLAN_ID
                 (set_value_data (data_u16 v) m))
       else if kw =? "cvlan_prio" then
         NEXT_ARG;; tok ← cur;
         v ← codec_call tok (parse_uint tok 3);
         mret (set_match_type KEFIR_MATCH_TYPE_CVLAN_PRIO
                 (set_value_data (data_u8 v) m))
       else if kw =? "cvlan_ethtype" then
         NEXT_ARG;; tok ← cur;
         v ← codec_call tok (parse_uint tok 16);
         mret (set_match_type KEFIR_MATCH_TYPE_CVLAN_ETHERTYPE
                 (set_value_data (data_u16 v) m))
       else if kw =? "ip_proto" then
         NEXT_ARG;; tok ← cur;
         v ← lift (tcflower_parse_ipproto tok);
         mret (set_match_type
                 (if ipv6_flow then KEFIR_MATCH_TYPE_IP_6_L4PROTO
                  else KEFIR_MATCH_TYPE_IP_4_L4PROTO)
                 (set_value_data (data_u8 v) m))
       else if kw =? "ip_tos" then
         NEXT_ARG;; tok ← cur;
         '(v, k) ← codec_call tok (parse_uint_slash_mask tok 8 (mask m));
         mret (set_match_type
                 (if ipv6_flow then KEFIR_MATCH_TYPE_IP_6_TOS
                  else KEFIR_MATCH_TYPE_IP_4_TOS)
                 (set_mask k (set_value_data (data_u8 v) m)))
       else if kw =? "ip_ttl" then
         NEXT_ARG;; tok ← cur;
         '(v, k) ← codec_call tok (parse_uint_slash_mask tok 8 (mask m));
         mret (set_match_type
                 (if ipv6_flow then KEFIR_MATCH_TYPE_IP_6_TTL
                  else KEFIR_MATCH_TYPE_IP_4_TTL)
                 (set_mask k (set_value_data (data_u8 v) m)))
       else if kw =? "dst_ip" then
         NEXT_ARG;; tok ← cur;
         if ipv6_flow then
           '(a, k) ← codec_call tok (parse_ipv6_addr_slash_mask tok (mask m));
           mret (set_match_type KEFIR_MATCH_TYPE_IP_6_DST
                   (set_mask k (set_value_data (data_ipv6 a) m)))
         else
           '(a, k) ← codec_call tok (parse_ipv4_addr_slash_mask tok (mask m));
           mret (set_match_type KEFIR_MATCH_TYPE_IP_4_DST
                   (set_mask k (set_value_data (data_ipv4 a) m)))
       else if kw =? "src_ip" then
         NEXT_ARG;; tok ← cur;
         if ipv6_flow then
           '(a, k) ← codec_call tok (parse_ipv6_addr_slash_mask tok (mask m));
           mret (set_match_type KEFIR_MATCH_TYPE_IP_6_SRC
                   (set_mask k (set_value_data (data_ipv6 a) m)))
         else
           '(a, k) ← codec_call tok (parse_ipv4_addr_slash_mask tok (mask m));
           mret (set_match_type KEFIR_MATCH_TYPE_IP_4_SRC
                   (set_mask k (set_value_data (data_ipv4 a) m)))
       else if kw =? "dst_port" then
         NEXT_ARG;; tok ← cur;
         v ← codec_call tok (parse_uint tok 16);
         mret (set_match_type
                 (if ipv6_flow then KEFIR_MATCH_TYPE_IP_6_L4PORT_DST
                  else KEFIR_MATCH_TYPE_IP_4_L4PORT_DST)
                 (set_value_data (data_u16 v) m))
       else if kw =? "src_port" then
         NEXT_ARG;; tok ← cur;
         v ← codec_call tok (parse_uint tok 16);
         mret (set_match_type
                 (if ipv6_flow then KEFIR_MATCH_TYPE_IP_6_L4PORT_SRC
                  else KEFIR_MATCH_TYPE_IP_4_L4PORT_SRC)
                 (set_value_data (data_u16 v) m))
       else fail (UnsupportedMatchKeyword kw));
  NEXT_ARG;;
  n ← argc;
  if (n <? 1)%nat then fail (BadArgumentCount match_args) else
  mret m.

(** The [for] loop of [tcflower_check_matchlist] over the slots from [i] on,
    with its two flags. *)
Fixpoint check_matchlist_scan (match_list : list kefir_match)
    (found_l4_port found_ipproto : bool) : bool * bool :=
  match match_list with
  | [] => (found_l4_port, found_ipproto)
  | m :: rest =>
    match match_type m with
    | KEFIR_MATCH_TYPE_UNSPEC => (found_l4_port, found_ipproto)
    | KEFIR_MATCH_TYPE_IP_4_L4PROTO
    | KEFIR_MATCH_TYPE_IP_6_L4PROTO
    | KEFIR_MATCH_TYPE_IP_ANY_L4PROTO =>
      check_matchlist_scan rest found_l4_port true
    | KEFIR_MATCH_TYPE_IP_4_L4PORT_SRC
    | KEFIR_MATCH_TYPE_IP_4_L4PORT_DST
    | KEFIR_MATCH_TYPE_IP_4_L4PORT_ANY
    | KEFIR_MATCH_TYPE_IP_6_L4PORT_SRC
    | KEFIR_MATCH_TYPE_IP_6_L4PORT_DST
    | KEFIR_MATCH_TYPE_IP_6_L4PORT_ANY
    | KEFIR_MATCH_TYPE_IP_ANY_L4PORT_SRC
    | KEFIR_MATCH_TYPE_IP_ANY_L4PORT_DST
    | KEFIR_MATCH_TYPE_IP_ANY_L4PORT_ANY =>
      check_matchlist_scan rest true found_ipproto
    | _ => check_matchlist_scan rest found_l4_port found_ipproto
    end
  end.

Definition tcflower_check_matchlist (match_list : list kefir_match) : result unit :=
  let '(found_l4_port, found_ipproto) :=
    check_matchlist_scan (take KEFIR_MAX_MATCH_PER_RULE match_list) false false in
  if found_l4_port && negb found_ipproto then Err MissingRequiredMatch
  else Ok tt.

Definition tcflower_parse_action : parser enum_action_code :=
  n ← argc;
  if negb (n =? 2)%nat then fail (BadArgumentCount action_args) else
  tok ← cur;
  if negb (tok =? "action") then fail MissingActionKeyword else
  NEXT_ARG;;
  tok ← cur;
  if tok =? "pass" then mret KEFIR_ACTION_CODE_PASS
  else if tok =? "drop" then mret KEFIR_ACTION_CODE_DROP
  else fail UnsupportedActionCode.

Definition tcflower_compose_rule (matches : list kefir_match)
    (action_code : enum_action_code) : result kefir_rule :=
  if calloc_null then Err AllocationFailure
  else Ok {| matches := take KEFIR_MAX_MATCH_PER_RULE matches;
             action := action_code |}.

(** The [while] loop of [tcflower_parse_rule], from the state
    ([matches], [match_index], cursor); it returns the state in which the loop
    condition is false. *)
Equations? tcflower_parse_rule_loop (ethtype : ether_proto_type)
    (matches : list kefir_match) (match_index : nat) (c : cursor)
    : result (list kefir_match * nat * cursor)
    by wf (KEFIR_MAX_MATCH_PER_RULE - match_index) lt :=
tcflower_parse_rule_loop ethtype matches match_index c
    with decide (2 < length c ∧ match_index < KEFIR_MAX_MATCH_PER_RULE) := {
  | left _ with tcflower_parse_match ethtype (matches !!! match_index) c := {
      | Ok (m, c') =>
        tcflower_parse_rule_loop ethtype
          (<[match_index := m]> matches) (S match_index) c'
      | Err e => Err e }
  | right _ => Ok (matches, match_index, c) }.
Proof. unfold KEFIR_MAX_MATCH_PER_RULE in *. lia. Qed.

Definition tcflower_parse_rule (user_rule : list string) : result kefir_rule :=
  let matches := replicate KEFIR_MAX_MATCH_PER_RULE zero_match in
  let rule_size := length user_rule in
  if (rule_size <? 6)%nat then Err (BadArgumentCount rule_args) else
  run (tok ← cur;
       if negb (tok =? "protocol") then fail ProtocolKeywordExpected else
       NEXT_ARG;;
       ethtype ← tcflower_parse_ethproto;
       tok ← cur;
       (if tok =? "flower" then NEXT_ARG else mret tt);;
       '(matches, _) ← tcflower_parse_rule_loop ethtype matches 0;
       lift (tcflower_check_matchlist matches);;
       action_code ← tcflower_parse_action;
       lift (tcflower_compose_rule matches action_code))
      user_rule.

End Parser.

(** ** A value codec *)

(** Modelled from the spec: the literal and address readers of the value
    codec of [libkefir_parse.c], which is outside the two source files.  They
    serve to run the parser on concrete token arrays; every general statement
    further down holds for an arbitrary codec. *)
Module Codec.

Local Open Scope Z_scope.

Definition digit_of (base : Z) (a : ascii) : option Z :=
  let n := Z.of_nat (nat_of_ascii a) in
  let d :=
    if (48 <=? n) && (n <=? 57) then n - 48
    else if (97 <=? n) && (n <=? 102) then n - 87
    else if (65 <=? n) && (n <=? 70) then n - 55
    else 16 in
  if d <? base then Some d else None.

Fixpoint digits (base : Z) (s : string) (acc : Z) : option Z :=
  match s with
  | EmptyString => Some acc
  | String a s' =>
    match digit_of base a with
    | Some d => digits base s' (base * acc + d)
    | None => None
    end
  end.

(** A non-empty run of digits in the given base. *)
Definition number (base : Z) (s : string) : option Z :=
  match s with
  | EmptyString => None
  | _ => digits base s 0
  end.

(** A decimal literal, or a hexadecimal one after [0x]. *)
Definition literal (s : string) : option Z :=
  match s with
  | String "0" (String "x" s') => number 16 s'
  | _ => number 10 s
  end.

(** The pieces of [s] between occurrences of [sep]. *)
Fixpoint split_on (sep : ascii) (s : string) : list string :=
  match s with
  | EmptyString => [EmptyString]
  | String a s' =>
    if Ascii.eqb a sep then EmptyString :: split_on sep s'
    else match split_on sep s' with
         | p :: ps => String a p :: ps
         | [] => [String a EmptyString]
         end
  end.

(** [s] cut at its first [::], when it has one. *)
Fixpoint cut_double_colon (s : string) : option (string * string) :=
  match s with
  | EmptyString => None
  | String ":" (String ":" s') => Some (EmptyString, s')
  | String a s' =>
    match cut_double_colon s' with
    | Some (l, r) => Some (String a l, r)
    | None => None
    end
  end.

Definition fits (nb_bits : nat) (v : Z) : bool := v <? 2 ^ Z.of_nat nb_bits.

(** The [n] low bytes of [v], least significant first. *)
Fixpoint le_bytes (n : nat) (v : Z) : list Z :=
  match n with
  | O => []
  | S n' => v mod 256 :: le_bytes n' (v / 256)
  end.

(** The first [len] bits set, over [n] bytes. *)
Fixpoint prefix_bytes (n : nat) (len : Z) : list Z :=
  match n with
  | O => []
  | S n' =>
    (if 8 <=? len then 255 else if len <=? 0 then 0 else 256 - 2 ^ (8 - len))
    :: prefix_bytes n' (len - 8)
  end.

(** Bytes stored at the start of a buffer. *)
Definition store (bytes buf : list Z) : list Z :=
  (bytes ++ drop (length bytes) buf)%list.

Definition all_ones (buf : list Z) : list Z := replicate (length buf) 255.

Definition uint (s : string) (nb_bits : nat) : option Z :=
  v ← literal s;
  if fits nb_bits v then Some v else None.

Definition check_and_store_uint (val : Z) (nb_bits : nat) (masked : bool)
    : option Z :=
  if (0 <=? val) && fits nb_bits val && negb masked then Some val else None.

Definition uint_slash_mask (s : string) (nb_bits : nat) (buf : list Z)
    : option (Z * list Z) :=
  match split_on "/" s with
  | [v] => v ← uint v nb_bits; Some (v, all_ones buf)
  | [v; k] =>
    v ← uint v nb_bits;
    k ← uint k nb_bits;
    Some (v, store (le_bytes (Nat.div (nb_bits + 7) 8) k) buf)
  | _ => None
  end.

(** [n] groups separated by [sep], each a number below [bound]. *)
Definition groups (sep : ascii) (base bound : Z) (s : string)
    : option (list Z) :=
  mapM (fun p => v ← number base p; if v <? bound then Some v else None)
       (split_on sep s).

Definition sized {A} (n : nat) (l : list A) : option (list A) :=
  if (length l =? n)%nat then Some l else None.

Definition eth_addr (s : string) : option (list Z) :=
  groups ":" 16 256 s ≫= sized 6.

Definition ipv4_addr (s : string) : option (list Z) :=
  groups "." 10 256 s ≫= sized 4.

(** Colon-separated 16-bit groups as bytes, most significant first; the empty
    string has no group. *)
Definition hextets (s : string) : option (list Z) :=
  match s with
  | EmptyString => Some []
  | _ => l ← groups ":" 16 65536 s;
         Some (concat (map (fun g => [g / 256; g mod 256]) l))
  end.

Definition ipv6_addr (s : string) : option (list Z) :=
  match cut_double_colon s with
  | None => hextets s ≫= sized 16
  | Some (l, r) =>
    l ← hextets l;
    r ← hextets r;
    if (length l + length r <? 16)%nat
    then Some (l ++ replicate (16 - length l - length r)%nat 0 ++ r)%list
    else None
  end.

(** An address, [address/mask] or [address/prefixlen] of [n] bytes. *)
Definition addr_slash_mask (addr : string -> option (list Z)) (n : nat)
    (s : string) (buf : list Z) : option (list Z * list Z) :=
  match split_on "/" s with
  | [a] => a ← addr a; Some (a, all_ones buf)
  | [a; k] =>
    a ← addr a;
    match number 10 k with
    | Some len =>
      if len <=? 8 * Z.of_nat n then Some (a, store (prefix_bytes n len) buf)
      else None
    | None => k ← addr k; Some (a, store k buf)
    end
  | _ => None
  end.

End Codec.

(** Modelled from the spec: the value codec of [libkefir_parse.c], whose
    functions are only called, not defined, in the source files at hand.  An
    unsigned literal is decimal or [0x] hexadecimal and must fit the bit
    width; the [_slash_mask] forms accept [value], [value/mask] and, for
    addresses, [address/prefixlen], and fill the whole mask buffer with ones
    when the token has no [/] part. *)
#[global] Instance kefir_codec : value_codec := {|
  parse_uint := Codec.uint;
  parse_check_and_store_uint := Codec.check_and_store_uint;
  parse_uint_slash_mask := Codec.uint_slash_mask;
  parse_eth_addr_slash_mask := Codec.addr_slash_mask Codec.eth_addr 6;
  parse_ipv4_addr_slash_mask := Codec.addr_slash_mask Codec.ipv4_addr 4;
  parse_ipv6_addr_slash_mask := Codec.addr_slash_mask Codec.ipv6_addr 16;
|}.

(** An allocator that has room, and one that has none. *)
Definition calloc_some : allocator := {| calloc_null := false |}.
Definition calloc_none : allocator := {| calloc_null := true |}.

(** ** The parser with the token counter as the code has it

    [argc] is an [unsigned int]: [tcflower_parse_rule] assigns it the
    [size_t] [rule_size], which keeps the low 32 bits only, and [NEXT_ARG]
    decrements it modulo 2^32, apart from [argv].  The module embeds the cursor
    functions again with this counter; the functions that do not touch the
    cursor ([tcflower_parse_ipproto], [tcflower_check_matchlist],
    [tcflower_compose_rule]) are the ones above.  On arrays of fewer than 2^32
    tokens the counter is the number of tokens left and the two embeddings
    agree, which is proved further down. *)
Module U32.

(** The values of an [unsigned int] are the integers below [UINT_MOD]. *)
Definition UINT_MOD : Z := 2 ^ 32.

Record cursor := {
  argv : list string;
  argc : Z;
}.

Definition parser (A : Type) : Type := cursor -> result (A * cursor).

#[global] Instance parser_ret : MRet parser :=
  fun A (a : A) c => Ok (a, c).

#[global] Instance parser_bind : MBind parser :=
  fun A B (k : A -> parser B) (m : parser A) c =>
    match m c with
    | Ok (a, c') => k a c'
    | Err e => Err e
    end.

Definition fail {A} (e : tc_error) : parser A := fun _ => Err e.

(** [*argc] *)
Definition get_argc : parser Z := fun c => Ok (argc c, c).

(** [**argv] *)
Definition cur : parser string :=
  fun c => match argv c with
           | tok :: _ => Ok (tok, c)
           | [] => Err CursorOverrun
           end.

(** [NEXT_ARG()]: [*argv += 1; *argc -= 1] *)
Definition NEXT_ARG : parser unit :=
  fun c => match argv c with
           | _ :: rest =>
             Ok (tt, {| argv := rest; argc := (argc c - 1) mod UINT_MOD |})
           | [] => Err CursorOverrun
           end.

Definition codec_call {A} (tok : string) (r : option A) : parser A :=
  match r with
  | Some a => mret a
  | None => fail (MalformedValue tok)
  end.

Definition lift {A} (r : result A) : parser A :=
  fun c => match r with
           | Ok a => Ok (a, c)
           | Err e => Err e
           end.

Definition run {A} (p : parser A) (c : cursor) : result A :=
  match p c with
  | Ok (a, _) => Ok a
  | Err e => Err e
  end.

Definition tcflower_parse_ethproto : parser ether_proto_type :=
  tok ← cur;
  ethtype ← (if (tok =? "ip") || (tok =? "ipv4") then mret TCFLOWER_ETH_PROTO_IPV4
             else if tok =? "ipv6" then mret TCFLOWER_ETH_PROTO_IPV6
             else fail (UnsupportedProtocol tok));
  NEXT_ARG;;
  mret ethtype.

Section Parser.
Context {codec : value_codec} {libc : allocator}.

(** [match0] is the slot [*match] as the caller hands it over; the result is
    the slot on a zero return. *)
Definition tcflower_parse_match (ethtype : ether_proto_type)
    (match0 : kefir_match) : parser kefir_match :=
  let ipv6_flow := bool_decide (ethtype = TCFLOWER_ETH_PROTO_IPV6) in
  n ← get_argc;
  if (n <? 2)%Z then fail (BadArgumentCount match_args) else
  let m := set_comp_operator KEFIR_OPER_EQUAL match0 in
  kw ← cur;
  m ← (if kw =? "dst_mac" then
         NEXT_ARG;; tok ← cur;
         '(a, k) ← codec_call tok (parse_eth_addr_slash_mask tok (mask m));
         mret (set_match_type KEFIR_MATCH_TYPE_ETHER_DST
                 (set_mask k (set_value_data (data_eth a) m)))
       else if kw =? "src_mac" then
         NEXT_ARG;; tok ← cur;
         '(a, k) ← codec_call tok (parse_eth_addr_slash_mask tok (mask m));
         mret (set_match_type KEFIR_MATCH_TYPE_ETHER_SRC
                 (set_mask k (set_value_data (data_eth a) m)))
       else if kw =? "vlan_id" then
         NEXT_ARG;; tok ← cur;
         v ← codec_call tok (parse_uint tok 12);
         mret (set_match_type KEFIR_MATCH_TYPE_SVLAN_ID
                 (set_value_data (data_u16 v) m))
       else if kw =? "vlan_prio" then
         NEXT_ARG;; tok ← cur;
         v ← codec_call tok (parse_uint tok 3);
         mret (set_match_type KEFIR_MATCH_TYPE_SVLAN_PRIO
                 (set_value_data (data_u8 v) m))
       else if kw =? "vlan_ethtype" then
         NEXT_ARG;; tok ← cur;
         v ← codec_call tok (parse_uint tok 16);
         mret (set_match_type KEFIR_MATCH_TYPE_SVLAN_ETHERTYPE
                 (set_value_data (data_u16 v) m))
       else if kw =? "cvlan_id" then
         NEXT_ARG;; tok ← cur;
         v ← codec_call tok (parse_uint tok 12);
         mret (set_match_type KEFIR_MATCH_TYPE_CVLAN_ID
                 (set_value_data (data_u16 v) m))
       else if kw =? "cvlan_prio" then
         NEXT_ARG;; tok ← cur;
         v ← codec_call tok (parse_uint tok 3);
         mret (set_match_type KEFIR_MATCH_TYPE_CVLAN_PRIO
                 (set_value_data (data_u8 v) m))
       else if kw =? "cvlan_ethtype" then
         NEXT_ARG;; tok ← cur;
         v ← codec_call tok (parse_uint tok 16);
         mret (set_match_type KEFIR_MATCH_TYPE_CVLAN_ETHERTYPE
                 (set_value_data (data_u16 v) m))
       else if kw =? "ip_proto" then
         NEXT_ARG;; tok ← cur;
         v ← lift (tcflower_parse_ipproto tok);
         mret (set_match_type
                 (if ipv6_flow then KEFIR_MATCH_TYPE_IP_6_L4PROTO
                  else KEFIR_MATCH_TYPE_IP_4_L4PROTO)
                 (set_value_data (data_u8 v) m))
       else if kw =? "ip_tos" then
         NEXT_ARG;; tok ← cur;
         '(v, k) ← codec_call tok (parse_uint_slash_mask tok 8 (mask m));
         mret (set_match_type
                 (if ipv6_flow then KEFIR_MATCH_TYPE_IP_6_TOS
                  else KEFIR_MATCH_TYPE_IP_4_TOS)
                 (set_mask k (set_value_data (data_u8 v) m)))
       else if kw =? "ip_ttl" then
         NEXT_ARG;; tok ← cur;
         '(v, k) ← codec_call tok (parse_uint_slash_mask tok 8 (mask m));
         mret (set_match_type
                 (if ipv6_flow then KEFIR_MATCH_TYPE_IP_6_TTL
                  else KEFIR_MATCH_TYPE_IP_4_TTL)
                 (set_mask k (set_value_data (data_u8 v) m)))
       else if kw =? "dst_ip" then
         NEXT_ARG;; tok ← cur;
         if ipv6_flow then
           '(a, k) ← codec_call tok (parse_ipv6_addr_slash_mask tok (mask m));
           mret (set_match_type KEFIR_MATCH_TYPE_IP_6_DST
                   (set_mask k (set_value_data (data_ipv6 a) m)))
         else
           '(a, k) ← codec_call tok (parse_ipv4_addr_slash_mask tok (mask m));
           mret (set_match_type KEFIR_MATCH_TYPE_IP_4_DST
                   (set_mask k (set_value_data (data_ipv4 a) m)))
       else if kw =? "src_ip" then
         NEXT_ARG;; tok ← cur;
         if ipv6_flow then
           '(a, k) ← codec_call tok (parse_ipv6_addr_slash_mask tok (mask m));
           mret (set_match_type KEFIR_MATCH_TYPE_IP_6_SRC
                   (set_mask k (set_value_data (data_ipv6 a) m)))
         else
           '(a, k) ← codec_call tok (parse_ipv4_addr_slash_mask tok (mask m));
           mret (set_match_type KEFIR_MATCH_TYPE_IP_4_SRC
                   (set_mask k (set_value_data (data_ipv4 a) m)))
       else if kw =? "dst_port" then
         NEXT_ARG;; tok ← cur;
         v ← codec_call tok (parse_uint tok 16);
         mret (set_match_type
                 (if ipv6_flow then KEFIR_MATCH_TYPE_IP_6_L4PORT_DST
                  else KEFIR_MATCH_TYPE_IP_4_L4PORT_DST)
                 (set_value_data (data_u16 v) m))
       else if kw =? "src_port" then
         NEXT_ARG;; tok ← cur;
         v ← codec_call tok (parse_uint tok 16);
         mret (set_match_type
                 (if ipv6_flow then KEFIR_MATCH_TYPE_IP_6_L4PORT_SRC
                  else KEFIR_MATCH_TYPE_IP_4_L4PORT_SRC)
                 (set_value_data (data_u16 v) m))
       else fail (UnsupportedMatchKeyword kw));
  NEXT_ARG;;
  n ← get_argc;
  if (n <? 1)%Z then fail (BadArgumentCount match_args) else
  mret m.

Definition tcflower_parse_action : parser enum_action_code :=
  n ← get_argc;
  if negb (n =? 2)%Z then fail (BadArgumentCount action_args) else
  tok ← cur;
  if negb (tok =? "action") then fail MissingActionKeyword else
  NEXT_ARG;;
  tok ← cur;
  if tok =? "pass" then mret KEFIR_ACTION_CODE_PASS
  else if tok =? "drop" then mret KEFIR_ACTION_CODE_DROP
  else fail UnsupportedActionCode.

(** The [while] loop of [tcflower_parse_rule]. *)
Equations? tcflower_parse_rule_loop (ethtype : ether_proto_type)
    (matches : list kefir_match) (match_index : nat) (c : cursor)
    : result (list kefir_match * nat * cursor)
    by wf (KEFIR_MAX_MATCH_PER_RULE - match_index) lt :=
tcflower_parse_rule_loop ethtype matches match_index c
    with decide ((2 < argc c)%Z ∧ match_index < KEFIR_MAX_MATCH_PER_RULE) := {
  | left _ with tcflower_parse_match ethtype (matches !!! match_index) c := {
      | Ok (m, c') =>
        tcflower_parse_rule_loop ethtype
          (<[match_index := m]> matches) (S match_index) c'
      | Err e => Err e }
  | right _ => Ok (matches, match_index, c) }.
Proof. unfold KEFIR_MAX_MATCH_PER_RULE in *. lia. Qed.

(** [rule_size] is a [size_t], compared as such with 6; [argc = rule_size]
    keeps its value modulo [UINT_MOD]. *)
Definition tcflower_parse_rule (user_rule : list string) : result kefir_rule :=
  let matches := replicate KEFIR_MAX_MATCH_PER_RULE zero_match in
  let rule_size := Z.of_nat (length user_rule) in
  if (rule_size <? 6)%Z then Err (BadArgumentCount rule_args) else
  run (tok ← cur;
       if negb (tok =? "protocol") then fail ProtocolKeywordExpected else
       NEXT_ARG;;
       ethtype ← tcflower_parse_ethproto;
       tok ← cur;
       (if tok =? "flower" then NEXT_ARG else mret tt);;
       '(matches, _) ← tcflower_parse_rule_loop ethtype matches 0;
       lift (tcflower_check_matchlist matches);;
       action_code ← tcflower_parse_action;
       lift (tcflower_compose_rule matches action_code))
      {| argv := user_rule; argc := rule_size mod UINT_MOD |}.

End Parser.

End U32.

(** ** Derived notions used in the statements *)

Section Notions.
Context {codec : value_codec} {libc : allocator}.

(** The match that the clause [kw tok] produces in slot [match0]: what
    [tcflower_parse_match] leaves in the slot when the clause is followed by
    one more token. *)
Definition tcflower_clause (ethtype : ether_proto_type) (match0 : kefir_match)
    (kw tok : string) : result kefir_match :=
  run (tcflower_parse_match ethtype match0) [kw; tok; tok].

(** The address family that [tcflower_parse_ethproto] selects for a token. *)
Definition family_of_token (fam : string) : result ether_proto_type :=
  run tcflower_parse_ethproto [fam].

(** The action code that [tcflower_parse_action] yields for a token. *)
Definition action_of_token (act : string) : result enum_action_code :=
  run tcflower_parse_action ["action"; act].

End Notions.

(** The tokens of a list of match clauses, and of a whole rule. *)
Definition clause_tokens (cl : list (string * string)) : list string :=
  flat_map (fun kv => [kv.1; kv.2]) cl.

Definition rule_tokens (fam : string) (flower : bool)
    (cl : list (string * string)) (tail : list string) : list string :=
  "protocol" :: fam :: (if flower then ["flower"] else []) ++
  clause_tokens cl ++ tail.

(** The match list held by an array of slots: the slots before the first
    [UNSPEC] one, within the capacity of a rule. *)
Fixpoint upto_unspec (slots : list kefir_match) : list kefir_match :=
  match slots with
  | [] => []
  | m :: rest =>
    if decide (match_type m = KEFIR_MATCH_TYPE_UNSPEC) then []
    else m :: upto_unspec rest
  end.

Definition match_list (slots : list kefir_match) : list kefir_match :=
  upto_unspec (take KEFIR_MAX_MATCH_PER_RULE slots).

(** The case groups of the [switch] in [tcflower_check_matchlist]. *)
Definition is_l4proto (t : enum_match_type) : bool :=
  match t with
  | KEFIR_MATCH_TYPE_IP_4_L4PROTO
  | KEFIR_MATCH_TYPE_IP_6_L4PROTO
  | KEFIR_MATCH_TYPE_IP_ANY_L4PROTO => true
  | _ => false
  end.

Definition is_l4port (t : enum_match_type) : bool :=
  match t with
  | KEFIR_MATCH_TYPE_IP_4_L4PORT_SRC
  | KEFIR_MATCH_TYPE_IP_4_L4PORT_DST
  | KEFIR_MATCH_TYPE_IP_4_L4PORT_ANY
  | KEFIR_MATCH_TYPE_IP_6_L4PORT_SRC
  | KEFIR_MATCH_TYPE_IP_6_L4PORT_DST
  | KEFIR_MATCH_TYPE_IP_6_L4PORT_ANY
  | KEFIR_MATCH_TYPE_IP_ANY_L4PORT_SRC
  | KEFIR_MATCH_TYPE_IP_ANY_L4PORT_DST
  | KEFIR_MATCH_TYPE_IP_ANY_L4PORT_ANY => true
  | _ => false
  end.

(** The address family a match kind is specific to, by its enumerator name
    ([IP_4_...], [IP_6_...]); [None] for every other kind. *)
Definition kind_family (t : enum_match_type) : option ether_proto_type :=
  match t with
  | KEFIR_MATCH_TYPE_IP_4_SRC | KEFIR_MATCH_TYPE_IP_4_DST
  | KEFIR_MATCH_TYPE_IP_4_ANY | KEFIR_MATCH_TYPE_IP_4_TOS
  | KEFIR_MATCH_TYPE_IP_4_TTL | KEFIR_MATCH_TYPE_IP_4_FLAGS
  | KEFIR_MATCH_TYPE_IP_4_L4PROTO | KEFIR_MATCH_TYPE_IP_4_L4DATA
  | KEFIR_MATCH_TYPE_IP_4_L4PORT_SRC | KEFIR_MATCH_TYPE_IP_4_L4PORT_DST
  | KEFIR_MATCH_TYPE_IP_4_L4PORT_ANY | KEFIR_MATCH_TYPE_IP_4_SPI
  | KEFIR_MATCH_TYPE_IP_4_TCP_FLAGS => Some TCFLOWER_ETH_PROTO_IPV4
  | KEFIR_MATCH_TYPE_IP_6_SRC | KEFIR_MATCH_TYPE_IP_6_DST
  | KEFIR_MATCH_TYPE_IP_6_ANY | KEFIR_MATCH_TYPE_IP_6_TOS
  | KEFIR_MATCH_TYPE_IP_6_TTL | KEFIR_MATCH_TYPE_IP_6_FLAGS
  | KEFIR_MATCH_TYPE_IP_6_L4PROTO | KEFIR_MATCH_TYPE_IP_6_L4DATA
  | KEFIR_MATCH_TYPE_IP_6_L4PORT_SRC | KEFIR_MATCH_TYPE_IP_6_L4PORT_DST
  | KEFIR_MATCH_TYPE_IP_6_L4PORT_ANY | KEFIR_MATCH_TYPE_IP_6_SPI
  | KEFIR_MATCH_TYPE_IP_6_TCP_FLAGS => Some TCFLOWER_ETH_PROTO_IPV6
  | _ => None
  end.

(** The match kinds whose clause is parsed by a [_slash_mask] codec function,
    with the mask buffer that function leaves for a value token. *)
Definition mask_parsed (t : enum_match_type) : bool :=
  match t with
  | KEFIR_MATCH_TYPE_ETHER_DST | KEFIR_MATCH_TYPE_ETHER_SRC
  | KEFIR_MATCH_TYPE_IP_4_TOS | KEFIR_MATCH_TYPE_IP_6_TOS
  | KEFIR_MATCH_TYPE_IP_4_TTL | KEFIR_MATCH_TYPE_IP_6_TTL
  | KEFIR_MATCH_TYPE_IP_4_DST | KEFIR_MATCH_TYPE_IP_4_SRC
  | KEFIR_MATCH_TYPE_IP_6_DST | KEFIR_MATCH_TYPE_IP_6_SRC => true
  | _ => false
  end.

Definition codec_mask {codec : value_codec} (t : enum_match_type)
    (tok : string) (buf : list Z) : option (list Z) :=
  match t with
  | KEFIR_MATCH_TYPE_ETHER_DST | KEFIR_MATCH_TYPE_ETHER_SRC =>
    snd <$> parse_eth_addr_slash_mask tok buf
  | KEFIR_MATCH_TYPE_IP_4_TOS | KEFIR_MATCH_TYPE_IP_6_TOS
  | KEFIR_MATCH_TYPE_IP_4_TTL | KEFIR_MATCH_TYPE_IP_6_TTL =>
    snd <$> parse_uint_slash_mask tok 8 buf
  | KEFIR_MATCH_TYPE_IP_4_DST | KEFIR_MATCH_TYPE_IP_4_SRC =>
    snd <$> parse_ipv4_addr_slash_mask tok buf
  | KEFIR_MATCH_TYPE_IP_6_DST | KEFIR_MATCH_TYPE_IP_6_SRC =>
    snd <$> parse_ipv6_addr_slash_mask tok buf
  | _ => None
  end.

(** The match array with its first slots filled and the others still zero. *)
Definition slots (filled : list kefir_match) : list kefir_match :=
  filled ++ replicate (KEFIR_MAX_MATCH_PER_RULE - length filled) zero_match.

(** Clause [kv] parses into match [m] in a zero slot. *)
Definition clause_parses {codec : value_codec} (ethtype : ether_proto_type)
    (kv : string * string) (m : kefir_match) : Prop :=
  tcflower_clause ethtype zero_match kv.1 kv.2 = Ok m.

(** The keywords whose match kind depends on the address family (the
    branches of [tcflower_parse_match] that test [ipv6_flow]). *)
Definition family_keyword (kw : string) : bool :=
  (kw =? "ip_proto") || (kw =? "ip_tos") || (kw =? "ip_ttl") ||
  (kw =? "dst_ip") || (kw =? "src_ip") ||
  (kw =? "dst_port") || (kw =? "src_port").

(** The calls of [tcflower_parse_match] that the loop makes from a state:
    [loop_call ethtype ms i c slot c'] when the loop started with the array
    [ms], the index [i] and the cursor [c] calls the function on slot [slot]
    with cursor [c']. *)
Inductive loop_call {codec : value_codec} (ethtype : ether_proto_type)
    : list kefir_match -> nat -> cursor -> kefir_match -> cursor -> Prop :=
| loop_call_now ms i c :
    2 < length c /\ i < KEFIR_MAX_MATCH_PER_RULE ->
    loop_call ethtype ms i c (ms !!! i) c
| loop_call_later ms i c m c1 slot c' :
    2 < length c /\ i < KEFIR_MAX_MATCH_PER_RULE ->
    tcflower_parse_match ethtype (ms !!! i) c = Ok (m, c1) ->
    loop_call ethtype (<[i := m]> ms) (S i) c1 slot c' ->
    loop_call ethtype ms i c slot c'.

(** The keyword table of [tcflower_parse_match], in the order of its tests,
    and the keywords that its closing comment lists as not yet supported. *)
Definition match_keywords : list string :=
  ["dst_mac"; "src_mac"; "vlan_id"; "vlan_prio"; "vlan_ethtype";
   "cvlan_id"; "cvlan_prio"; "cvlan_ethtype"; "ip_proto"; "ip_tos"; "ip_ttl";
   "dst_ip"; "src_ip"; "dst_port"; "src_port"].

Definition in_table (kw : string) : bool :=
  existsb (String.eqb kw) match_keywords.

(** The plain-uint keywords with the bit width that [tcflower_parse_match]
    hands to [parse_uint] for each. *)
Definition uint_keyword_widths : list (string * nat) :=
  [("vlan_id", 12); ("vlan_prio", 3); ("vlan_ethtype", 16);
   ("cvlan_id", 12); ("cvlan_prio", 3); ("cvlan_ethtype", 16);
   ("dst_port", 16); ("src_port", 16)].

Definition reserved_keywords : list string :=
  ["type"; "code"; "tcp_flags"; "mpls_label"; "mpls_tc"; "mpls_bos";
   "mpls_ttl"; "arp_tip"; "arp_sip"; "arp_op"; "arp_tha"; "arp_sha";
   "enc_key_id"; "enc_dst_ip"; "enc_src_ip"; "enc_dst_port"; "enc_tos";
   "enc_ttl"; "geneve_opts"; "ip_flags"].

(** The protocol names of [tcflower_parse_ipproto] with the constant each
    one stands for. *)
Definition ipproto_aliases : list (string * Z) :=
  [("tcp", IPPROTO_TCP); ("udp", IPPROTO_UDP); ("sctp", IPPROTO_SCTP);
   ("icmp", IPPROTO_ICMP); ("icmpv6", IPPROTO_ICMPV6)].

(** The cursor after the optional [flower] keyword, and the rest of
    [tcflower_parse_rule] from there: the loop, the match-list check, the
    action clause and the composition. *)
Definition skip_flower (c : cursor) : cursor :=
  match c with
  | tok :: c' => if tok =? "flower" then c' else c
  | [] => c
  end.

Definition tcflower_parse_rule_body {codec : value_codec} {libc : allocator}
    (ethtype : ether_proto_type) (c : cursor) : result kefir_rule :=
  match tcflower_parse_rule_loop ethtype
          (replicate KEFIR_MAX_MATCH_PER_RULE zero_match) 0 c with
  | Err e => Err e
  | Ok (ms, _, c') =>
    match tcflower_check_matchlist ms with
    | Err e => Err e
    | Ok _ =>
      match tcflower_parse_action c' with
      | Err e => Err e
      | Ok (code, _) => tcflower_compose_rule ms code
      end
    end
  end.

(** The tokens that the 32-bit counter accounts for: of a cursor, and of a
    token list whose length was assigned to the counter. *)
Definition counted (c : U32.cursor) : cursor :=
  take (Z.to_nat (U32.argc c)) (U32.argv c).

Definition counted_tokens (l : list string) : list string :=
  take (Z.to_nat (Z.of_nat (length l) mod U32.UINT_MOD)) l.

(** The counter holds an [unsigned int] value and does not exceed the tokens
    left. *)
Definition in_range (c : U32.cursor) : Prop :=
  (0 <= U32.argc c <= Z.of_nat (length (U32.argv c)))%Z /\
  (U32.argc c < U32.UINT_MOD)%Z.

(** A run with the 32-bit counter and a run on the counted tokens end alike:
    with the same error, or with the same value and cursors that correspond. *)
Definition same_outcome {A} (r32 : result (A * U32.cursor))
    (r : result (A * cursor)) : Prop :=
  match r32, r with
  | Ok (a32, c32), Ok (a, c) => a32 = a /\ in_range c32 /\ counted c32 = c
  | Err e32, Err e => e32 = e
  | _, _ => False
  end.

(** The value token has a [/mask] or [/prefixlen] part. *)
Definition has_mask_part (tok : string) : bool :=
  existsb (Ascii.eqb "/") (list_ascii_of_string tok).

(** Modelled from the spec: the default of the [_slash_mask] functions of the
    value codec, which are outside the source files.  Given a token with no
    [/] part they fill the mask buffer with ones ("default: all-ones = exact
    match"). *)
Definition codec_default_ones (codec : value_codec) : Prop :=
  forall t tok k,
    has_mask_part tok = false ->
    codec_mask t tok (zero_bytes 16) = Some k ->
    k = replicate 16 255%Z.

(** The keywords whose value goes through a [_slash_mask] codec function,
    which is handed the mask of the slot. *)
Definition mask_keyword (kw : string) : bool :=
  (kw =? "dst_mac") || (kw =? "src_mac") || (kw =? "ip_tos") ||
  (kw =? "ip_ttl") || (kw =? "dst_ip") || (kw =? "src_ip").

(** The mask of the match [m] of the clause [kv]: under a mask keyword the
    buffer that the codec function filled, from the zeroed one, for the value
    token of the clause; under any other keyword the zeroed buffer. *)
Definition clause_mask {codec : value_codec} (kv : string * string)
    (m : kefir_match) : Prop :=
  if mask_keyword kv.1
  then codec_mask (match_type m) kv.2 (zero_bytes 16) = Some (mask m)
  else mask m = zero_bytes 16.

(** A mask keyword whose value token has no [/] part gives an all-ones
    mask. *)
Definition clause_mask_default (kv : string * string) (m : kefir_match)
    : Prop :=
  mask_keyword kv.1 = true -> has_mask_part kv.2 = false ->
  mask m = replicate 16 255%Z.

(** The parser run with the codec [kefir_codec] and an allocator that has
    room, and the matches of plain-uint clauses in a zero slot. *)
Definition parse_with_room : list string -> result kefir_rule :=
  @tcflower_parse_rule kefir_codec calloc_some.

Definition parse_with_room_u32 : list string -> result kefir_rule :=
  @U32.tcflower_parse_rule kefir_codec calloc_some.

(** 2^32 tokens, and an array of 2^32 + 4 tokens: the header, the action
    clause, and these tokens. *)
Definition oversized_tail : list string := replicate (Z.to_nat (2 ^ 32)) "x".

Definition oversized_rule : list string :=
  "protocol" :: "ip" :: "action" :: "drop" :: oversized_tail.

Definition u16_match (t : enum_match_type) (v : Z) : kefir_match :=
  set_match_type t (set_value_data (data_u16 v) zero_match).

Definition u8_match (t : enum_match_type) (v : Z) : kefir_match :=
  set_match_type t (set_value_data (data_u8 v) zero_match).

(** * Properties *)

(** ** The cursor operations *)

Ltac parser_unfold :=
  unfold mbind, mret, parser_bind, parser_ret, fail, lift, codec_call,
    cur, NEXT_ARG, argc in *.

Ltac split_once :=
  match goal with
  | |- context [String.eqb ?a ?b] =>
    let E := fresh "E" in destruct (String.eqb a b) eqn:E
  | |- context [bool_decide ?P] => destruct (bool_decide_reflect P)
  | |- context [match ?o with Some _ => _ | None => _ end] =>
    lazymatch o with
    | context [String.eqb] => fail
    | _ => let E := fresh "C" in
           destruct o as [[? ?]|] eqn:E || destruct o as [?|] eqn:E
    end
  end.

Ltac u32_unfold :=
  unfold mbind, mret, U32.parser_bind, U32.parser_ret, U32.fail, U32.lift,
    U32.codec_call, U32.cur, U32.NEXT_ARG, U32.get_argc in *.

Ltac eqb_facts :=
  repeat match goal with
         | E : String.eqb _ _ = true |- _ => apply String.eqb_eq in E; subst
         end.

Section Properties.
Context {codec : value_codec} {libc : allocator}.

Lemma parse_match_frame ethtype match0 kw tok x rest :
  tcflower_parse_match ethtype match0 (kw :: tok :: x :: rest) =
  match tcflower_clause ethtype match0 kw tok with
  | Ok m => Ok (m, x :: rest)
  | Err e => Err e
  end.
Proof.
  unfold tcflower_clause, run, tcflower_parse_match, tcflower_parse_ipproto.
  parser_unfold. simpl.
  repeat split_once; simpl; try reflexivity.
Qed.

(** What a clause that parses leaves in the slot. *)
Lemma clause_ok_inv ethtype match0 kw tok m :
  tcflower_clause ethtype match0 kw tok = Ok m ->
  match_type m <> KEFIR_MATCH_TYPE_UNSPEC /\
  comp_operator m = OPER_EQUAL /\
  (flags m = flags match0 /\ max_value m = max_value match0 /\
   format (value m) = format (value match0)) /\
  (kind_family (match_type m) = None \/
   kind_family (match_type m) =
     Some (if decide (ethtype = TCFLOWER_ETH_PROTO_IPV6)
           then TCFLOWER_ETH_PROTO_IPV6 else TCFLOWER_ETH_PROTO_IPV4)) /\
  (if mask_parsed (match_type m)
   then codec_mask (match_type m) tok (mask match0) = Some (mask m)
   else mask m = mask match0) /\
  (is_l4port (match_type m) = true <-> kw = "dst_port" \/ kw = "src_port") /\
  (is_l4proto (match_type m) = true <-> kw = "ip_proto") /\
  kw <> "flower".
Proof.
  unfold tcflower_clause, run, tcflower_parse_match, tcflower_parse_ipproto.
  parser_unfold. simpl. unfold codec_mask.
  repeat split_once; simpl; intros H; try discriminate H;
    injection H as <-; simpl;
    repeat match goal with
           | E : String.eqb _ _ = true |- _ => apply String.eqb_eq in E; subst
           | E : String.eqb _ _ = false |- _ => clear E
           | E : ?o = Some _ |- context [?o] => rewrite E
           end;
    repeat case_decide; try congruence;
    (repeat split; try done; try tauto; try (intros [?|?]; done); auto).
Qed.

(** A successful call consumed one clause and left at least one token. *)
Lemma parse_match_ok_inv ethtype match0 c m c' :
  tcflower_parse_match ethtype match0 c = Ok (m, c') ->
  exists kw tok x rest,
    c = kw :: tok :: x :: rest /\ c' = x :: rest /\
    tcflower_clause ethtype match0 kw tok = Ok m.
Proof.
  destruct c as [|kw [|tok [|x rest]]].
  - discriminate.
  - discriminate.
  - unfold tcflower_parse_match, tcflower_parse_ipproto. parser_unfold. simpl.
    repeat split_once; simpl; discriminate.
  - rewrite parse_match_frame.
    destruct (tcflower_clause ethtype match0 kw tok) as [m1|e] eqn:Hc;
      [|discriminate].
    intros [= -> <-]. eauto 10.
Qed.

(** With three tokens or more, neither token-count check of
    [tcflower_parse_match] fires, and the cursor is not overrun. *)
Lemma parse_match_enough_tokens ethtype match0 c e :
  3 <= length c ->
  tcflower_parse_match ethtype match0 c = Err e ->
  e <> BadArgumentCount match_args /\ e <> CursorOverrun.
Proof.
  destruct c as [|kw [|tok [|x rest]]]; simpl; try lia. intros _.
  unfold tcflower_parse_match, tcflower_parse_ipproto. parser_unfold. simpl.
  repeat split_once; simpl; intros [= <-]; split; discriminate.
Qed.

Lemma parse_rule_loop_unfold ethtype ms i c :
  tcflower_parse_rule_loop ethtype ms i c =
  if decide (2 < length c /\ i < KEFIR_MAX_MATCH_PER_RULE) then
    match tcflower_parse_match ethtype (ms !!! i) c with
    | Ok (m, c') => tcflower_parse_rule_loop ethtype (<[i := m]> ms) (S i) c'
    | Err e => Err e
    end
  else Ok (ms, i, c).
Proof.
  rewrite tcflower_parse_rule_loop_equation_1.
  destruct (decide _) as [Hg|Hg]; simpl; [|reflexivity].
  destruct (tcflower_parse_match ethtype (ms !!! i) c) as [[m c']|e];
    reflexivity.
Qed.

(** Family-dependent keywords resolve to a kind of the selected family, the
    other keywords to a kind of no family. *)
Lemma clause_family_kind ethtype match0 kw tok m :
  tcflower_clause ethtype match0 kw tok = Ok m ->
  kind_family (match_type m) =
  if family_keyword kw
  then Some (if decide (ethtype = TCFLOWER_ETH_PROTO_IPV6)
             then TCFLOWER_ETH_PROTO_IPV6 else TCFLOWER_ETH_PROTO_IPV4)
  else None.
Proof.
  unfold tcflower_clause, run, tcflower_parse_match, tcflower_parse_ipproto.
  parser_unfold. simpl.
  repeat split_once; simpl; intros H; try discriminate H;
    injection H as <-; simpl;
    repeat match goal with
           | E : String.eqb _ _ = true |- _ => apply String.eqb_eq in E; subst
           | E : String.eqb _ _ = false |- _ => clear E
           end;
    repeat case_decide; try congruence; reflexivity.
Qed.

(** ** The match array *)

Lemma slots_nil : slots [] = replicate KEFIR_MAX_MATCH_PER_RULE zero_match.
Proof. reflexivity. Qed.

Lemma slots_length filled :
  length filled <= KEFIR_MAX_MATCH_PER_RULE ->
  length (slots filled) = KEFIR_MAX_MATCH_PER_RULE.
Proof.
  intros H. unfold slots. rewrite length_app, length_replicate. lia.
Qed.

Lemma slots_next filled :
  length filled < KEFIR_MAX_MATCH_PER_RULE ->
  slots filled !!! length filled = zero_match.
Proof.
  intros H. unfold slots. apply list_lookup_total_correct.
  rewrite lookup_app_r by lia. rewrite Nat.sub_diag.
  destruct (KEFIR_MAX_MATCH_PER_RULE - length filled) eqn:E; [lia|reflexivity].
Qed.

Lemma slots_fill filled m :
  length filled < KEFIR_MAX_MATCH_PER_RULE ->
  <[length filled := m]> (slots filled) = slots (filled ++ [m]).
Proof.
  intros H. unfold slots. rewrite length_app. simpl.
  replace (length filled) with (length filled + 0) at 1 by lia.
  rewrite insert_app_r.
  destruct (KEFIR_MAX_MATCH_PER_RULE - length filled) eqn:E; [lia|].
  simpl. rewrite <- app_assoc. simpl. do 3 f_equal. lia.
Qed.

(** ** The match-collection loop *)

(** The loop run on the tokens of clauses that parse. *)
Lemma parse_rule_loop_clauses ethtype cl : forall filled ms tail,
  Forall2 (clause_parses ethtype) cl ms ->
  length filled + length cl <= KEFIR_MAX_MATCH_PER_RULE ->
  tail <> [] ->
  length tail <= 2 \/ length filled + length cl = KEFIR_MAX_MATCH_PER_RULE ->
  tcflower_parse_rule_loop ethtype (slots filled) (length filled)
    (clause_tokens cl ++ tail) =
  Ok (slots (filled ++ ms), length filled + length cl, tail).
Proof.
  induction cl as [|[kw tok] cl IH]; intros filled ms tail Hms Hcap Hne Hstop.
  - apply Forall2_nil_inv_l in Hms as ->. simpl in *.
    rewrite parse_rule_loop_unfold, app_nil_r, Nat.add_0_r.
    rewrite decide_False by lia. reflexivity.
  - apply Forall2_cons_inv_l in Hms as (m & ms' & Hm & Hms' & ->).
    simpl in *.
    destruct (clause_tokens cl ++ tail) as [|x rest] eqn:Hrest.
    { apply app_eq_nil in Hrest as [_ ?]. contradiction. }
    rewrite parse_rule_loop_unfold.
    rewrite decide_True by (simpl; lia).
    rewrite slots_next by lia. rewrite parse_match_frame.
    unfold clause_parses in Hm. simpl in Hm. rewrite Hm.
    rewrite slots_fill by lia. rewrite <- Hrest.
    replace (S (length filled)) with (length (filled ++ [m]))
      by (rewrite length_app; simpl; lia).
    rewrite (IH (filled ++ [m]) ms' tail Hms'), <- app_assoc; simpl.
    + do 3 f_equal. rewrite length_app. simpl. lia.
    + rewrite length_app. simpl. lia.
    + assumption.
    + rewrite length_app. simpl. lia.
Qed.

(** Every run of the loop that returns is of that form. *)
Lemma parse_rule_loop_ok_inv ethtype n : forall filled c ms' i' c',
  n = KEFIR_MAX_MATCH_PER_RULE - length filled ->
  length filled <= KEFIR_MAX_MATCH_PER_RULE ->
  tcflower_parse_rule_loop ethtype (slots filled) (length filled) c =
    Ok (ms', i', c') ->
  exists cl ms,
    c = clause_tokens cl ++ c' /\
    Forall2 (clause_parses ethtype) cl ms /\
    i' = length filled + length cl /\
    i' <= KEFIR_MAX_MATCH_PER_RULE /\
    ms' = slots (filled ++ ms) /\
    (cl <> [] -> c' <> []) /\
    ~ (2 < length c' /\ i' < KEFIR_MAX_MATCH_PER_RULE).
Proof.
  induction n as [|n IH]; intros filled c ms' i' c' Hn Hlen;
    rewrite parse_rule_loop_unfold.
  - rewrite decide_False by lia. intros [= <- <- <-].
    exists [], []. rewrite app_nil_r. simpl.
    repeat split; auto using Forall2_nil_2; try lia; try congruence.
  - destruct (decide _) as [Hg|Hg].
    + rewrite slots_next by lia.
      destruct (tcflower_parse_match _ _ _) as [[m c1]|e] eqn:Hm;
        [|discriminate].
      apply parse_match_ok_inv in Hm as (kw & tok & x & rest & -> & -> & Hm).
      rewrite slots_fill by lia.
      replace (S (length filled)) with (length (filled ++ [m]))
        by (rewrite length_app; simpl; lia).
      intros Hloop. apply IH in Hloop; cycle 1.
      { rewrite length_app. simpl. lia. }
      { rewrite length_app. simpl. lia. }
      destruct Hloop as (cl & ms & Hc & Hms & -> & Hi & -> & Hne & Hex).
      exists ((kw, tok) :: cl), (m :: ms). simpl. rewrite <- Hc.
      rewrite length_app in *. simpl in *. rewrite <- app_assoc. simpl.
      repeat split; try lia; auto.
      intros _. destruct cl; [|auto].
      simpl in Hc. rewrite <- Hc. discriminate.
    + intros [= <- <- <-]. exists [], []. rewrite app_nil_r. simpl.
      repeat split; auto using Forall2_nil_2; try lia; try congruence.
Qed.

(** ** The match-list check *)

Lemma check_matchlist_scan_spec l : forall p q,
  check_matchlist_scan l p q =
  (p || existsb (fun m => is_l4port (match_type m)) (upto_unspec l),
   q || existsb (fun m => is_l4proto (match_type m)) (upto_unspec l)).
Proof.
  induction l as [|m l IH]; intros p q; simpl.
  - rewrite !orb_false_r. reflexivity.
  - destruct (match_type m) eqn:E; simpl; rewrite ?E, ?IH; simpl;
      rewrite ?orb_false_r, ?orb_true_r; reflexivity.
Qed.

Lemma check_matchlist_spec ml :
  tcflower_check_matchlist ml =
  if existsb (fun m => is_l4port (match_type m)) (match_list ml) &&
     negb (existsb (fun m => is_l4proto (match_type m)) (match_list ml))
  then Err MissingRequiredMatch else Ok tt.
Proof.
  unfold tcflower_check_matchlist, match_list.
  rewrite check_matchlist_scan_spec. reflexivity.
Qed.

Lemma upto_unspec_filled ms k :
  Forall (fun m => match_type m <> KEFIR_MATCH_TYPE_UNSPEC) ms ->
  upto_unspec (ms ++ replicate k zero_match) = ms.
Proof.
  induction 1 as [|m ms Hm _ IH]; simpl.
  - destruct k; reflexivity.
  - rewrite decide_False by assumption. f_equal. exact IH.
Qed.

Lemma clauses_parsed_kinds ethtype cl ms :
  Forall2 (clause_parses ethtype) cl ms ->
  Forall (fun m => match_type m <> KEFIR_MATCH_TYPE_UNSPEC) ms.
Proof.
  induction 1 as [|kv m cl ms Hm _ IH]; constructor; [|exact IH].
  apply clause_ok_inv in Hm. tauto.
Qed.

Lemma match_list_slots ethtype cl ms :
  Forall2 (clause_parses ethtype) cl ms ->
  length cl <= KEFIR_MAX_MATCH_PER_RULE ->
  match_list (slots ms) = ms.
Proof.
  intros Hms Hlen. unfold match_list.
  rewrite take_ge.
  - apply upto_unspec_filled. eapply clauses_parsed_kinds, Hms.
  - rewrite slots_length; [lia|]. apply Forall2_length in Hms. lia.
Qed.

(** A port kind comes from a port keyword, an L4-protocol kind from
    [ip_proto]. *)
Lemma clauses_port_kinds ethtype cl ms :
  Forall2 (clause_parses ethtype) cl ms ->
  existsb (fun m => is_l4port (match_type m)) ms =
  existsb (fun kv => (kv.1 =? "dst_port") || (kv.1 =? "src_port")) cl.
Proof.
  induction 1 as [|kv m cl ms Hm _ IH]; simpl; [reflexivity|].
  rewrite IH. f_equal.
  apply clause_ok_inv in Hm as (_ & _ & _ & _ & _ & Hp & _).
  apply eq_true_iff_eq. rewrite Hp, orb_true_iff, !String.eqb_eq. tauto.
Qed.

Lemma clauses_proto_kinds ethtype cl ms :
  Forall2 (clause_parses ethtype) cl ms ->
  existsb (fun m => is_l4proto (match_type m)) ms =
  existsb (fun kv => kv.1 =? "ip_proto") cl.
Proof.
  induction 1 as [|kv m cl ms Hm _ IH]; simpl; [reflexivity|].
  rewrite IH. f_equal.
  apply clause_ok_inv in Hm as (_ & _ & _ & _ & _ & _ & Hp & _).
  apply eq_true_iff_eq. rewrite Hp, String.eqb_eq. tauto.
Qed.

(** ** The protocol and action clauses *)

Lemma parse_ethproto_frame fam rest :
  tcflower_parse_ethproto (fam :: rest) =
  match family_of_token fam with
  | Ok ethtype => Ok (ethtype, rest)
  | Err e => Err e
  end.
Proof.
  unfold family_of_token, run, tcflower_parse_ethproto. parser_unfold. simpl.
  destruct ((fam =? "ip") || (fam =? "ipv4")); [reflexivity|].
  destruct (fam =? "ipv6"); reflexivity.
Qed.

Lemma family_of_token_ok fam ethtype :
  family_of_token fam = Ok ethtype <->
  ((fam = "ip" \/ fam = "ipv4") /\ ethtype = TCFLOWER_ETH_PROTO_IPV4) \/
  (fam = "ipv6" /\ ethtype = TCFLOWER_ETH_PROTO_IPV6).
Proof.
  unfold family_of_token, run, tcflower_parse_ethproto. parser_unfold. simpl.
  destruct (fam =? "ip") eqn:E1; simpl.
  { apply String.eqb_eq in E1 as ->. split.
    - intros [= <-]. auto.
    - intros [[_ ->]|[? _]]; [reflexivity|discriminate]. }
  destruct (fam =? "ipv4") eqn:E2; simpl.
  { apply String.eqb_eq in E2 as ->. split.
    - intros [= <-]. auto.
    - intros [[_ ->]|[? _]]; [reflexivity|discriminate]. }
  destruct (fam =? "ipv6") eqn:E3; simpl.
  { apply String.eqb_eq in E3 as ->. split.
    - intros [= <-]. auto.
    - intros [[[?|?] _]|[_ ->]]; [discriminate..|reflexivity]. }
  apply String.eqb_neq in E1, E2, E3. split; [discriminate|].
  intros [[[?|?] _]|[? _]]; contradiction.
Qed.

Lemma action_of_token_ok act a :
  action_of_token act = Ok a <->
  (act = "pass" /\ a = ACTION_CODE_PASS) \/
  (act = "drop" /\ a = ACTION_CODE_DROP).
Proof.
  unfold action_of_token, run, tcflower_parse_action. parser_unfold. simpl.
  destruct (act =? "pass") eqn:E1.
  { apply String.eqb_eq in E1 as ->. split.
    - intros [= <-]. auto.
    - intros [[_ ->]|[? _]]; [reflexivity|discriminate]. }
  destruct (act =? "drop") eqn:E2.
  { apply String.eqb_eq in E2 as ->. split.
    - intros [= <-]. auto.
    - intros [[? _]|[_ ->]]; [discriminate|reflexivity]. }
  apply String.eqb_neq in E1, E2. split; [discriminate|].
  intros [[? _]|[? _]]; contradiction.
Qed.

Lemma parse_action_ok_inv c a c' :
  tcflower_parse_action c = Ok (a, c') ->
  exists act, c = ["action"; act] /\ action_of_token act = Ok a.
Proof.
  destruct c as [|t0 [|act [|x rest]]]; try discriminate.
  intros H. exists act. revert H.
  unfold action_of_token, run, tcflower_parse_action. parser_unfold. simpl.
  destruct (t0 =? "action") eqn:E0; simpl; [|discriminate].
  apply String.eqb_eq in E0 as ->.
  destruct (act =? "pass"); [intros [= <- <-]; auto|].
  destruct (act =? "drop"); [intros [= <- <-]; auto|discriminate].
Qed.

Lemma parse_action_tokens act :
  tcflower_parse_action ["action"; act] =
  match action_of_token act with
  | Ok a => Ok (a, [act])
  | Err e => Err e
  end.
Proof.
  unfold action_of_token, run, tcflower_parse_action. parser_unfold. simpl.
  destruct (act =? "pass"); [reflexivity|].
  destruct (act =? "drop"); reflexivity.
Qed.

Lemma parse_action_count c :
  length c <> 2 ->
  tcflower_parse_action c = Err (BadArgumentCount action_args).
Proof.
  intros H. unfold tcflower_parse_action. parser_unfold.
  destruct (length c =? 2)%nat eqn:E; [|reflexivity].
  apply Nat.eqb_eq in E. contradiction.
Qed.

(** ** The rule parser *)

Lemma clause_tokens_length cl : length (clause_tokens cl) = 2 * length cl.
Proof. induction cl as [|kv cl IH]; simpl; lia. Qed.

Lemma rule_tokens_length fam flower cl tail :
  length (rule_tokens fam flower cl tail) =
  2 + (if flower then 1 else 0) + 2 * length cl + length tail.
Proof.
  unfold rule_tokens. simpl. rewrite !length_app, clause_tokens_length.
  destruct flower; simpl; lia.
Qed.

(** The parser on a token array of the grammar's shape: the protocol clause
    and the clauses go through, the outcome is that of the match-list check,
    the action clause and the composition. *)
Lemma parse_rule_tokens fam ethtype flower cl ms tail :
  family_of_token fam = Ok ethtype ->
  Forall2 (clause_parses ethtype) cl ms ->
  cl <> [] ->
  length cl <= KEFIR_MAX_MATCH_PER_RULE ->
  tail <> [] ->
  length tail <= 2 \/ length cl = KEFIR_MAX_MATCH_PER_RULE ->
  6 <= length (rule_tokens fam flower cl tail) ->
  tcflower_parse_rule (rule_tokens fam flower cl tail) =
  match tcflower_check_matchlist (slots ms) with
  | Err e => Err e
  | Ok _ =>
    match tcflower_parse_action tail with
    | Err e => Err e
    | Ok (a, _) => tcflower_compose_rule (slots ms) a
    end
  end.
Proof.
  intros Hfam Hms Hcl Hcap Htail Hstop Hlen.
  pose proof (parse_rule_loop_clauses ethtype cl [] ms tail Hms Hcap Htail Hstop)
    as Hloop.
  unfold tcflower_parse_rule.
  destruct (Nat.ltb_spec (length (rule_tokens fam flower cl tail)) 6) as [?|_];
    [lia|].
  unfold rule_tokens, run. unfold mbind at 1, parser_bind at 1, cur at 1.
  change ("protocol" =? "protocol") with true. cbv beta iota. cbn [negb].
  unfold mbind at 1, parser_bind at 1, NEXT_ARG at 1. cbv beta iota.
  unfold mbind at 1, parser_bind at 1. rewrite parse_ethproto_frame, Hfam.
  rewrite <- slots_nil.
  assert (Hflower :
    (tok ← cur; (if tok =? "flower" then NEXT_ARG else mret ()))
      ((if flower then ["flower"] else []) ++ clause_tokens cl ++ tail) =
    Ok (tt, clause_tokens cl ++ tail)).
  { destruct flower; [reflexivity|].
    destruct cl as [|[kw tok] cl]; [contradiction|].
    apply Forall2_cons_inv_l in Hms as (m & ms' & Hm & _ & _).
    apply clause_ok_inv in Hm. destruct Hm as (_ & _ & _ & _ & _ & _ & _ & Hkw).
    apply String.eqb_neq in Hkw. simpl in Hkw.
    unfold mbind, parser_bind, cur. simpl. rewrite Hkw. reflexivity. }
  unfold mbind at 1, parser_bind at 1.
  unfold mbind at 1, parser_bind at 1 in Hflower.
  destruct (cur _) as [[tok c1]|e] eqn:Hcur; [|discriminate].
  unfold mbind at 1, parser_bind at 1. rewrite Hflower.
  unfold mbind at 1, parser_bind at 1.
  change 0 with (length (@nil kefir_match)). rewrite Hloop. simpl.
  unfold mbind, parser_bind, lift.
  destruct (tcflower_check_matchlist (slots ms)) as [[]|e0]; [|reflexivity].
  destruct (tcflower_parse_action tail) as [[code c2]|e1]; [|reflexivity].
  destruct (tcflower_compose_rule (slots ms) code); reflexivity.
Qed.

(** Every token array that [tcflower_parse_rule] accepts has the grammar's
    shape, and the rule holds the matches of its clauses, in order, in the
    first slots. *)
Lemma parse_rule_ok_inv user_rule rule :
  tcflower_parse_rule user_rule = Ok rule ->
  exists fam ethtype flower cl ms act,
    user_rule = rule_tokens fam flower cl ["action"; act] /\
    family_of_token fam = Ok ethtype /\
    Forall2 (clause_parses ethtype) cl ms /\
    1 <= length cl <= KEFIR_MAX_MATCH_PER_RULE /\
    tcflower_check_matchlist (slots ms) = Ok tt /\
    action_of_token act = Ok (action rule) /\
    matches rule = slots ms /\
    calloc_null = false.
Proof.
  unfold tcflower_parse_rule.
  destruct (Nat.ltb_spec (length user_rule) 6) as [?|Hlen]; [discriminate|].
  destruct user_rule as [|t0 [|fam [|t2 rest]]]; simpl in Hlen; try lia.
  unfold run. unfold mbind at 1, parser_bind at 1, cur at 1. cbv beta iota.
  destruct (t0 =? "protocol") eqn:E0; [|discriminate].
  apply String.eqb_eq in E0 as ->. cbn [negb].
  unfold mbind at 1, parser_bind at 1, NEXT_ARG at 1. cbv beta iota.
  unfold mbind at 1, parser_bind at 1. rewrite parse_ethproto_frame.
  destruct (family_of_token fam) as [ethtype|e] eqn:Hfam; [|discriminate].
  unfold mbind at 1, parser_bind at 1, cur at 1. cbv beta iota.
  unfold mbind at 1, parser_bind at 1.
  rewrite <- slots_nil. change 0 with (length (@nil kefir_match)).
  assert (Hgen : forall (flower : bool) (c : cursor),
    t2 :: rest = (if flower then ["flower"] else []) ++ c ->
    run (('(matches, _) ←
            (tcflower_parse_rule_loop ethtype (slots [])
               (length (@nil kefir_match))
             : parser (list kefir_match * nat));
          lift (tcflower_check_matchlist matches);;
          action_code ← tcflower_parse_action;
          lift (tcflower_compose_rule matches action_code))
         : parser kefir_rule) c = Ok rule ->
    exists cl ms act,
      c = clause_tokens cl ++ ["action"; act] /\
      Forall2 (clause_parses ethtype) cl ms /\
      1 <= length cl <= KEFIR_MAX_MATCH_PER_RULE /\
      tcflower_check_matchlist (slots ms) = Ok tt /\
      action_of_token act = Ok (action rule) /\
      matches rule = slots ms /\
      calloc_null = false).
  { intros flower c Hc. unfold run. unfold mbind at 1, parser_bind at 1.
    destruct (tcflower_parse_rule_loop _ _ _ c) as [[[ms' i'] c']|e] eqn:Hloop;
      [|discriminate].
    eapply parse_rule_loop_ok_inv in Hloop; [|reflexivity|simpl; lia].
    destruct Hloop as (cl & ms & -> & Hms & -> & Hcap & -> & Hne & Hex).
    simpl in *. unfold mbind, parser_bind, lift.
    destruct (tcflower_check_matchlist (slots ms)) as [[]|e0] eqn:Hchk;
      [|discriminate].
    destruct (tcflower_parse_action c') as [[code c2]|e1] eqn:Hact;
      [|discriminate].
    apply parse_action_ok_inv in Hact as (act & -> & Hact).
    unfold tcflower_compose_rule.
    destruct calloc_null; [discriminate|]. intros [= <-]. simpl.
    exists cl, ms, act. repeat split; try assumption.
    - apply (f_equal length) in Hc. simpl in Hc.
      rewrite !length_app, clause_tokens_length in Hc.
      destruct flower; simpl in Hc; lia.
    - apply take_ge. rewrite slots_length; [lia|].
      apply Forall2_length in Hms. lia. }
  destruct (t2 =? "flower") eqn:E2.
  - apply String.eqb_eq in E2 as ->.
    unfold NEXT_ARG at 1. cbv beta iota. intros H.
    apply (Hgen true rest) in H; [|reflexivity].
    destruct H as (cl & ms & act & -> & H).
    exists fam, ethtype, true, cl, ms, act. split; [reflexivity|]. tauto.
  - unfold mret at 1, parser_ret at 1. intros H.
    apply (Hgen false (t2 :: rest)) in H; [|reflexivity].
    destruct H as (cl & ms & act & Hc & H).
    exists fam, ethtype, false, cl, ms, act. split; [|tauto].
    unfold rule_tokens. simpl. rewrite Hc. reflexivity.
Qed.

Lemma existsb_port_keyword (cl : list (string * string)) :
  existsb (fun kv => (kv.1 =? "dst_port") || (kv.1 =? "src_port")) cl = true <->
  Exists (fun kv => kv.1 = "dst_port" \/ kv.1 = "src_port") cl.
Proof.
  induction cl as [|kv cl IH]; simpl.
  - rewrite Exists_nil. split; [discriminate|tauto].
  - rewrite Exists_cons, <- IH, !orb_true_iff, !String.eqb_eq. tauto.
Qed.

Lemma existsb_proto_keyword (cl : list (string * string)) :
  existsb (fun kv => kv.1 =? "ip_proto") cl = true <->
  Exists (fun kv => kv.1 = "ip_proto") cl.
Proof.
  induction cl as [|kv cl IH]; simpl.
  - rewrite Exists_nil. split; [discriminate|tauto].
  - rewrite Exists_cons, <- IH, !orb_true_iff, !String.eqb_eq. tauto.
Qed.

(** The match-list check on the matches of parsed clauses, in terms of the
    clause keywords. *)
Lemma check_matchlist_clauses ethtype cl ms :
  Forall2 (clause_parses ethtype) cl ms ->
  length cl <= KEFIR_MAX_MATCH_PER_RULE ->
  tcflower_check_matchlist (slots ms) =
  if existsb (fun kv => (kv.1 =? "dst_port") || (kv.1 =? "src_port")) cl &&
     negb (existsb (fun kv => kv.1 =? "ip_proto") cl)
  then Err MissingRequiredMatch else Ok tt.
Proof.
  intros Hms Hlen. rewrite check_matchlist_spec.
  rewrite (match_list_slots ethtype cl ms Hms Hlen).
  rewrite (clauses_port_kinds ethtype cl ms Hms).
  rewrite (clauses_proto_kinds ethtype cl ms Hms). reflexivity.
Qed.

(** ** Errors that cannot come out *)

Lemma parse_rule_loop_err ethtype n : forall ms i c e,
  n = KEFIR_MAX_MATCH_PER_RULE - i ->
  tcflower_parse_rule_loop ethtype ms i c = Err e ->
  e <> BadArgumentCount match_args /\ e <> CursorOverrun.
Proof.
  induction n as [|n IH]; intros ms i c e Hn; rewrite parse_rule_loop_unfold.
  - rewrite decide_False by lia. discriminate.
  - destruct (decide _) as [[Hc Hi]|_]; [|discriminate].
    destruct (tcflower_parse_match _ _ _) as [[m c1]|e1] eqn:Hm.
    + apply IH. lia.
    + intros [= ->]. eapply parse_match_enough_tokens; [|exact Hm]. lia.
Qed.

Lemma family_of_token_err fam e :
  family_of_token fam = Err e -> e = UnsupportedProtocol fam.
Proof.
  unfold family_of_token, run, tcflower_parse_ethproto. parser_unfold. simpl.
  destruct ((fam =? "ip") || (fam =? "ipv4")); [discriminate|].
  destruct (fam =? "ipv6"); [discriminate|]. intros [= <-]. reflexivity.
Qed.

Lemma parse_action_err c e :
  tcflower_parse_action c = Err e ->
  e <> BadArgumentCount match_args /\ e <> CursorOverrun.
Proof.
  destruct c as [|t0 [|act [|x rest]]];
    unfold tcflower_parse_action; parser_unfold; simpl;
    try (intros [= <-]; split; discriminate).
  destruct (t0 =? "action"); simpl;
    [|intros [= <-]; split; discriminate].
  destruct (act =? "pass"); [discriminate|].
  destruct (act =? "drop"); [discriminate|].
  intros [= <-]; split; discriminate.
Qed.

Lemma parse_rule_err user_rule e :
  tcflower_parse_rule user_rule = Err e ->
  e <> BadArgumentCount match_args /\ e <> CursorOverrun.
Proof.
  unfold tcflower_parse_rule.
  destruct (Nat.ltb_spec (length user_rule) 6) as [?|Hlen];
    [intros [= <-]; split; discriminate|].
  destruct user_rule as [|t0 [|fam [|t2 rest]]]; simpl in Hlen; try lia.
  unfold run. unfold mbind at 1, parser_bind at 1, cur at 1. cbv beta iota.
  destruct (t0 =? "protocol"); cbn [negb];
    [|intros [= <-]; split; discriminate].
  unfold mbind at 1, parser_bind at 1, NEXT_ARG at 1. cbv beta iota.
  unfold mbind at 1, parser_bind at 1. rewrite parse_ethproto_frame.
  destruct (family_of_token fam) as [ethtype|e0] eqn:Hfam.
  2:{ apply family_of_token_err in Hfam as ->.
      intros [= <-]; split; discriminate. }
  unfold mbind at 1, parser_bind at 1, cur at 1. cbv beta iota.
  unfold mbind at 1, parser_bind at 1.
  assert (Hgen : forall c : cursor,
    run (('(matches, _) ←
            (tcflower_parse_rule_loop ethtype
               (replicate KEFIR_MAX_MATCH_PER_RULE zero_match) 0
             : parser (list kefir_match * nat));
          lift (tcflower_check_matchlist matches);;
          action_code ← tcflower_parse_action;
          lift (tcflower_compose_rule matches action_code))
         : parser kefir_rule) c = Err e ->
    e <> BadArgumentCount match_args /\ e <> CursorOverrun).
  { intros c. unfold run. unfold mbind at 1, parser_bind at 1.
    destruct (tcflower_parse_rule_loop _ _ _ c) as [[[ms i] c1]|e1] eqn:Hloop.
    2:{ intros [= <-]. eapply parse_rule_loop_err; [reflexivity|exact Hloop]. }
    unfold mbind, parser_bind, lift.
    rewrite check_matchlist_spec.
    destruct (existsb _ _ && negb (existsb _ _));
      [intros [= <-]; split; discriminate|].
    destruct (tcflower_parse_action c1) as [[code c2]|e1] eqn:Hact.
    2:{ intros [= <-]. eapply parse_action_err, Hact. }
    unfold tcflower_compose_rule. destruct calloc_null; [|discriminate].
    intros [= <-]; split; discriminate. }
  destruct (t2 =? "flower").
  - unfold NEXT_ARG at 1. cbv beta iota. apply Hgen.
  - unfold mret at 1, parser_ret at 1. apply Hgen.
Qed.

(** ** The matches of a parsed rule *)

Lemma Forall2_elem_of_r {A B} (P : A -> B -> Prop) l k y :
  Forall2 P l k -> y ∈ k -> exists x, x ∈ l /\ P x y.
Proof.
  induction 1 as [|x y' l k Hxy _ IH]; intros Hin.
  - apply elem_of_nil in Hin. contradiction.
  - apply elem_of_cons in Hin as [->|Hin].
    + exists x. split; [apply elem_of_cons; left; reflexivity|exact Hxy].
    + destruct (IH Hin) as (x' & Hx' & HP). exists x'.
      split; [apply elem_of_cons; right; exact Hx'|exact HP].
Qed.

Lemma clause_value_token fam flower (cl : list (string * string)) tail kv :
  kv ∈ cl -> kv.2 ∈ rule_tokens fam flower cl tail.
Proof.
  intros Hin. unfold rule_tokens.
  do 2 (apply elem_of_cons; right).
  apply elem_of_app. right. apply elem_of_app. left.
  unfold clause_tokens. apply list_elem_of_In, in_flat_map.
  exists kv. split; [apply list_elem_of_In, Hin|]. simpl. auto.
Qed.

(** A slot of a parsed rule is still zero, or holds the match of a clause of
    the token array. *)
Lemma parse_rule_slot_inv user_rule rule m :
  tcflower_parse_rule user_rule = Ok rule ->
  m ∈ matches rule ->
  m = zero_match \/
  exists ethtype kw tok,
    tok ∈ user_rule /\ tcflower_clause ethtype zero_match kw tok = Ok m.
Proof.
  intros H Hin. apply parse_rule_ok_inv in H.
  destruct H as (fam & ethtype & flower & cl & ms & act & -> & _ & Hms & _ & _
                 & _ & Hrule & _).
  rewrite Hrule in Hin. unfold slots in Hin.
  apply elem_of_app in Hin as [Hin|Hin].
  - right. destruct (Forall2_elem_of_r _ _ _ _ Hms Hin) as ([kw tok] & Hkv & HP).
    exists ethtype, kw, tok. split; [|exact HP].
    apply (clause_value_token fam flower cl _ (kw, tok) Hkv).
  - left. apply elem_of_replicate in Hin. tauto.
Qed.

End Properties.

(** * The claims *)

Section Claims.
Context {codec : value_codec} {libc : allocator}.

(** C1 (amended).  For every token array of the grammar
    [protocol {ip|ipv4|ipv6} [flower] <match-clause>* action {pass|drop}] with
    between 1 and 5 match clauses that each parse, in which a [dst_port] or
    [src_port] clause is accompanied by an [ip_proto] clause, and when the
    allocation of the rule succeeds, [tcflower_parse_rule] returns a rule
    whose action is the code of the action token and whose slots [0..n-1]
    hold, in token order, the matches of the [n] clauses (the remaining slots
    are zero). *)
Theorem parse_rule_grammar fam ethtype flower cl ms act code :
  family_of_token fam = Ok ethtype ->
  Forall2 (clause_parses ethtype) cl ms ->
  1 <= length cl <= KEFIR_MAX_MATCH_PER_RULE ->
  action_of_token act = Ok code ->
  (Exists (fun kv => kv.1 = "dst_port" \/ kv.1 = "src_port") cl ->
   Exists (fun kv => kv.1 = "ip_proto") cl) ->
  calloc_null = false ->
  tcflower_parse_rule (rule_tokens fam flower cl ["action"; act]) =
  Ok {| matches :=
          ms ++ replicate (KEFIR_MAX_MATCH_PER_RULE - length cl) zero_match;
        action := code |}.
Proof.
  intros Hfam Hms [Hn1 Hn5] Hact Hport Hheap.
  rewrite (parse_rule_tokens fam ethtype flower cl ms ["action"; act] Hfam Hms).
  - rewrite (check_matchlist_clauses ethtype cl ms Hms Hn5).
    destruct (existsb _ cl && negb (existsb _ cl)) eqn:E.
    { apply andb_true_iff in E as [E1 E2].
      apply existsb_port_keyword, Hport, existsb_proto_keyword in E1.
      rewrite E1 in E2. discriminate. }
    rewrite parse_action_tokens, Hact.
    unfold tcflower_compose_rule. rewrite Hheap.
    rewrite take_ge.
    + unfold slots. rewrite (Forall2_length _ _ _ Hms). reflexivity.
    + rewrite slots_length; [lia|].
      rewrite <- (Forall2_length _ _ _ Hms). lia.
  - destruct cl; simpl in *; [lia|discriminate].
  - assumption.
  - discriminate.
  - left. simpl. lia.
  - rewrite rule_tokens_length. simpl. lia.
Qed.



(** C6.  A token array of fewer than 6 tokens is rejected with
    BadArgumentCount, the error of the first check of [tcflower_parse_rule];
    the outcome is the same whatever the tokens, the codec and the allocator
    are: nothing is parsed. *)
Theorem short_rule_rejected user_rule :
  length user_rule < 6 ->
  tcflower_parse_rule user_rule = Err (BadArgumentCount rule_args) /\
  (forall (codec' : value_codec) (libc' : allocator) user_rule',
     length user_rule' < 6 ->
     @tcflower_parse_rule codec' libc' user_rule' =
     tcflower_parse_rule user_rule).
Proof.
  assert (H : forall (co : value_codec) (li : allocator) r, length r < 6 ->
            @tcflower_parse_rule co li r = Err (BadArgumentCount rule_args)).
  { intros co li r Hr. unfold tcflower_parse_rule.
    destruct (Nat.ltb_spec (length r) 6); [reflexivity|lia]. }
  intros Hlen. split; [auto|].
  intros codec' libc' user_rule' Hlen'. rewrite !H by assumption. reflexivity.
Qed.

(** C7 (amended).  The 4-token array [protocol arp action drop] is rejected
    with BadArgumentCount, being shorter than 6 tokens; an array of 6 tokens or
    more that starts with [protocol arp] is rejected with UnsupportedProtocol,
    carrying the token [arp]. *)
Theorem arp_rule_rejected :
  tcflower_parse_rule ["protocol"; "arp"; "action"; "drop"] =
    Err (BadArgumentCount rule_args) /\
  (forall t2 t3 t4 t5 rest,
     tcflower_parse_rule ("protocol" :: "arp" :: t2 :: t3 :: t4 :: t5 :: rest) =
     Err (UnsupportedProtocol "arp")).
Proof.
  split; [reflexivity|]. intros t2 t3 t4 t5 rest. reflexivity.
Qed.

(** C9.  Every call of [tcflower_parse_match] that the loop of
    [tcflower_parse_rule] makes has 3 tokens or more, as the loop condition
    guarantees; with 3 tokens or more neither token-count check of
    [tcflower_parse_match] fires; so neither the loop nor
    [tcflower_parse_rule] ever fails with the BadArgumentCount error of
    [tcflower_parse_match]. *)
Theorem match_count_checks_unreachable :
  (forall ethtype ms i c slot c',
     loop_call ethtype ms i c slot c' ->
     3 <= length c' /\
     tcflower_parse_match ethtype slot c' <>
     Err (BadArgumentCount match_args)) /\
  (forall ethtype match0 c,
     3 <= length c ->
     tcflower_parse_match ethtype match0 c <>
     Err (BadArgumentCount match_args)) /\
  (forall ethtype ms i c,
     tcflower_parse_rule_loop ethtype ms i c <>
     Err (BadArgumentCount match_args)) /\
  (forall user_rule,
     tcflower_parse_rule user_rule <> Err (BadArgumentCount match_args)).
Proof.
  assert (Hcall : forall ethtype match0 c,
            3 <= length c ->
            tcflower_parse_match ethtype match0 c <>
            Err (BadArgumentCount match_args)).
  { intros ethtype match0 c Hc H.
    apply parse_match_enough_tokens in H; [|exact Hc]. tauto. }
  split; [|split; [|split]].
  - intros ethtype ms i c slot c'.
    induction 1 as [ms i c [Hc _]|ms i c m c1 slot c' _ _ _ IH].
    + split; [lia|]. apply Hcall. lia.
    + exact IH.
  - exact Hcall.
  - intros ethtype ms i c H.
    eapply parse_rule_loop_err in H; [|reflexivity]. tauto.
  - intros user_rule H. apply parse_rule_err in H. tauto.
Qed.

(** C5.  In a rule returned by [tcflower_parse_rule] the family token is
    [ip] or [ipv4], selecting IPv4, or [ipv6], selecting IPv6; the match of
    each clause with a family-dependent keyword ([ip_proto], [ip_tos],
    [ip_ttl], [dst_ip], [src_ip], [dst_port], [src_port]) has a kind of the
    selected family and the match of any other clause a kind of no family; so
    every slot holds a kind of the selected family or of no family, and no
    two slots hold kinds of different families. *)
Theorem parsed_rule_family user_rule rule :
  tcflower_parse_rule user_rule = Ok rule ->
  (exists fam ethtype flower cl act,
     user_rule = rule_tokens fam flower cl ["action"; act] /\
     (((fam = "ip" \/ fam = "ipv4") /\ ethtype = TCFLOWER_ETH_PROTO_IPV4) \/
      (fam = "ipv6" /\ ethtype = TCFLOWER_ETH_PROTO_IPV6)) /\
     Forall2 (fun kv m =>
                kind_family (match_type m) =
                if family_keyword kv.1 then Some ethtype else None)
             cl (match_list (matches rule)) /\
     (forall m, m ∈ matches rule ->
        kind_family (match_type m) = None \/
        kind_family (match_type m) = Some ethtype)) /\
  (forall m1 m2 f1 f2,
     m1 ∈ matches rule -> m2 ∈ matches rule ->
     kind_family (match_type m1) = Some f1 ->
     kind_family (match_type m2) = Some f2 ->
     f1 = f2).
Proof.
  intros H. apply parse_rule_ok_inv in H.
  destruct H as (fam & ethtype & flower & cl & ms & act & -> & Hfam & Hms
                 & [Hn1 Hn5] & _ & _ & Hrule & _).
  apply family_of_token_ok in Hfam.
  assert (Hsel : (if decide (ethtype = TCFLOWER_ETH_PROTO_IPV6)
                  then TCFLOWER_ETH_PROTO_IPV6 else TCFLOWER_ETH_PROTO_IPV4)
                 = ethtype).
  { destruct Hfam as [[_ ->]|[_ ->]]; reflexivity. }
  assert (Hkind : Forall2 (fun kv m =>
                kind_family (match_type m) =
                if family_keyword kv.1 then Some ethtype else None) cl ms).
  { eapply Forall2_impl; [exact Hms|]. intros [kw tok] m Hm.
    apply clause_family_kind in Hm. rewrite Hsel in Hm. exact Hm. }
  assert (Hall : forall m, m ∈ matches rule ->
            kind_family (match_type m) = None \/
            kind_family (match_type m) = Some ethtype).
  { intros m Hin. rewrite Hrule in Hin. unfold slots in Hin.
    apply elem_of_app in Hin as [Hin|Hin].
    - destruct (Forall2_elem_of_r _ _ _ _ Hkind Hin) as (kv & _ & ->).
      destruct (family_keyword kv.1); auto.
    - apply elem_of_replicate in Hin as [-> _]. left. reflexivity. }
  split.
  - exists fam, ethtype, flower, cl, act.
    rewrite Hrule at 1. rewrite (match_list_slots ethtype cl ms Hms Hn5).
    repeat split; assumption.
  - intros m1 m2 f1 f2 H1 H2 E1 E2.
    destruct (Hall m1 H1) as [E|E]; rewrite E in E1; [discriminate|].
    destruct (Hall m2 H2) as [E'|E']; rewrite E' in E2; [discriminate|].
    congruence.
Qed.

(** C10.  [tcflower_parse_match] leaves the [flags] and [max_value] fields
    of the slot as they were and sets the comparison operator to equal; so in
    a rule returned by [tcflower_parse_rule] every match has [flags] equal to
    0 (no flag bit is set), an all-zero [max_value], and the equal
    operator. *)
Theorem parsed_rule_untouched_fields :
  (forall ethtype match0 c m c',
     tcflower_parse_match ethtype match0 c = Ok (m, c') ->
     flags m = flags match0 /\ max_value m = max_value match0 /\
     comp_operator m = OPER_EQUAL) /\
  (forall user_rule rule,
     tcflower_parse_rule user_rule = Ok rule ->
     forall m, m ∈ matches rule ->
       flags m = 0%Z /\ (forall bits, Z.land (flags m) bits = 0%Z) /\
       max_value m = zero_bytes 16 /\
       comp_operator m = OPER_EQUAL).
Proof.
  split.
  - intros ethtype match0 c m c' H.
    apply parse_match_ok_inv in H as (kw & tok & x & rest & _ & _ & H).
    apply clause_ok_inv in H. tauto.
  - intros user_rule rule H m Hin.
    assert (Hm : flags m = 0%Z /\ max_value m = zero_bytes 16 /\
                 comp_operator m = OPER_EQUAL).
    { destruct (parse_rule_slot_inv user_rule rule m H Hin)
        as [->|(ethtype & kw & tok & _ & Hm)]; [auto|].
      apply clause_ok_inv in Hm. simpl in Hm. tauto. }
    destruct Hm as (Hf & Hmax & Hop). repeat split; try assumption.
    intros bits. rewrite Hf. apply Z.land_0_l.
Qed.

End Claims.

(** * The claims on concrete token arrays *)

Example tcp_port_rule :
  parse_with_room
    ["protocol"; "ip"; "ip_proto"; "tcp"; "dst_port"; "80"; "action"; "drop"] =
  Ok {| matches := slots [u8_match KEFIR_MATCH_TYPE_IP_4_L4PROTO 6;
                          u16_match KEFIR_MATCH_TYPE_IP_4_L4PORT_DST 80];
        action := ACTION_CODE_DROP |}.
Proof. reflexivity. Qed.

Example ipv6_src_rule :
  parse_with_room
    ["protocol"; "ipv6"; "src_ip"; "2001:db8::1/64"; "action"; "pass"] =
  Ok {| matches :=
          slots [set_match_type KEFIR_MATCH_TYPE_IP_6_SRC
                   (set_mask (replicate 8 255 ++ replicate 8 0)%Z
                      (set_value_data
                         (data_ipv6 [32; 1; 13; 184; 0; 0; 0; 0;
                                     0; 0; 0; 0; 0; 0; 0; 1]%Z)
                         zero_match))];
        action := ACTION_CODE_PASS |}.
Proof. reflexivity. Qed.

Example flower_dst_mac_rule :
  parse_with_room
    ["protocol"; "ip"; "flower"; "dst_mac"; "aa:bb:cc:dd:ee:ff";
     "action"; "pass"] =
  Ok {| matches :=
          slots [set_match_type KEFIR_MATCH_TYPE_ETHER_DST
                   (set_mask (replicate 16 255)%Z
                      (set_value_data
                         (data_eth [170; 187; 204; 221; 238; 255]%Z)
                         zero_match))];
        action := ACTION_CODE_PASS |}.
Proof. reflexivity. Qed.

Example vlan_id_out_of_width :
  parse_with_room ["protocol"; "ip"; "vlan_id"; "4096"; "action"; "drop"] =
  Err (MalformedValue "4096").
Proof. reflexivity. Qed.

Example sixth_clause_rejected :
  parse_with_room
    ["protocol"; "ip"; "vlan_id"; "1"; "vlan_prio"; "2"; "cvlan_id"; "3";
     "cvlan_prio"; "4"; "ip_ttl"; "5"; "ip_tos"; "6"; "action"; "drop"] =
  Err (BadArgumentCount action_args).
Proof. reflexivity. Qed.

Example no_room_for_rule :
  @tcflower_parse_rule kefir_codec calloc_none
    ["protocol"; "ip"; "vlan_id"; "1"; "action"; "drop"] =
  Err AllocationFailure.
Proof. reflexivity. Qed.

(** C1 as stated fails: the array [protocol ip dst_port 80 action drop] is of
    the grammar, with one clause that parses and a valid action, and is
    rejected. *)
Lemma grammar_rule_port_without_proto :
  @family_of_token "ip" = Ok TCFLOWER_ETH_PROTO_IPV4 /\
  @clause_parses kefir_codec TCFLOWER_ETH_PROTO_IPV4 ("dst_port", "80")
    (u16_match KEFIR_MATCH_TYPE_IP_4_L4PORT_DST 80) /\
  @action_of_token "drop" = Ok ACTION_CODE_DROP /\
  parse_with_room (rule_tokens "ip" false [("dst_port", "80")] ["action"; "drop"])
  = Err MissingRequiredMatch.
Proof. repeat split; reflexivity. Qed.

Lemma parse_rule_grammar_witness :
  parse_with_room
    (rule_tokens "ip" false [("ip_proto", "tcp"); ("dst_port", "80")]
       ["action"; "drop"]) =
  Ok {| matches :=
          [u8_match KEFIR_MATCH_TYPE_IP_4_L4PROTO 6;
           u16_match KEFIR_MATCH_TYPE_IP_4_L4PORT_DST 80] ++
          replicate (KEFIR_MAX_MATCH_PER_RULE - 2) zero_match;
        action := ACTION_CODE_DROP |}.
Proof.
  apply (@parse_rule_grammar kefir_codec calloc_some "ip"
           TCFLOWER_ETH_PROTO_IPV4 false
           [("ip_proto", "tcp"); ("dst_port", "80")]).
  - reflexivity.
  - repeat constructor.
  - simpl. unfold KEFIR_MAX_MATCH_PER_RULE. lia.
  - reflexivity.
  - intros _. apply Exists_cons_hd. reflexivity.
  - reflexivity.
Defined.



Lemma parsed_rule_family_witness :
  exists rule,
    parse_with_room
      ["protocol"; "ipv6"; "ip_proto"; "udp"; "src_port"; "53"; "vlan_id"; "7";
       "action"; "pass"] = Ok rule /\
    forall m1 m2 f1 f2,
      m1 ∈ matches rule -> m2 ∈ matches rule ->
      kind_family (match_type m1) = Some f1 ->
      kind_family (match_type m2) = Some f2 ->
      f1 = f2.
Proof.
  eexists. split; [reflexivity|].
  exact (proj2 (@parsed_rule_family kefir_codec calloc_some
    ["protocol"; "ipv6"; "ip_proto"; "udp"; "src_port"; "53"; "vlan_id"; "7";
     "action"; "pass"] _ eq_refl)).
Defined.

Lemma short_rule_rejected_witness :
  parse_with_room ["protocol"; "ip"; "vlan_id"; "5"; "action"] =
  Err (BadArgumentCount rule_args).
Proof.
  refine (proj1 (@short_rule_rejected kefir_codec calloc_some
                   ["protocol"; "ip"; "vlan_id"; "5"; "action"] _)).
  simpl. lia.
Defined.

(** C7 as stated fails: the 4-token array is rejected for its length, before
    the family token is looked at. *)
Lemma arp_rule_short_count :
  parse_with_room ["protocol"; "arp"; "action"; "drop"] =
    Err (BadArgumentCount rule_args) /\
  parse_with_room ["protocol"; "arp"; "action"; "drop"] <>
    Err (UnsupportedProtocol "arp").
Proof. split; [reflexivity|discriminate]. Qed.

(** C8 as stated fails: the match of [vlan_id 5] has an all-zero mask, not an
    all-ones one. *)
Lemma plain_uint_mask_zero :
  parse_with_room_u32 ["protocol"; "ip"; "vlan_id"; "5"; "action"; "drop"] =
    Ok {| matches := slots [u16_match KEFIR_MATCH_TYPE_VLAN_ID 5];
          action := ACTION_CODE_DROP |} /\
  mask (u16_match KEFIR_MATCH_TYPE_VLAN_ID 5) = replicate 16 0%Z /\
  mask (u16_match KEFIR_MATCH_TYPE_VLAN_ID 5) <> replicate 16 255%Z.
Proof. repeat split; [reflexivity..|discriminate]. Qed.

Lemma match_count_checks_unreachable_witness :
  3 <= length ["vlan_id"; "4096"; "action"; "drop"] /\
  @tcflower_parse_match kefir_codec TCFLOWER_ETH_PROTO_IPV4
    (slots [] !!! 0) ["vlan_id"; "4096"; "action"; "drop"] <>
  Err (BadArgumentCount match_args).
Proof.
  apply (proj1 (@match_count_checks_unreachable kefir_codec calloc_some)
           TCFLOWER_ETH_PROTO_IPV4 (slots []) 0
           ["vlan_id"; "4096"; "action"; "drop"]).
  apply loop_call_now. unfold KEFIR_MAX_MATCH_PER_RULE. simpl. lia.
Defined.

Lemma parsed_rule_untouched_fields_witness :
  flags (u8_match KEFIR_MATCH_TYPE_IP_4_L4PROTO 6) = 0%Z /\
  max_value (u8_match KEFIR_MATCH_TYPE_IP_4_L4PROTO 6) = zero_bytes 16 /\
  comp_operator (u8_match KEFIR_MATCH_TYPE_IP_4_L4PROTO 6) = OPER_EQUAL.
Proof.
  pose proof (proj2 (@parsed_rule_untouched_fields kefir_codec calloc_some)
    ["protocol"; "ip"; "ip_proto"; "tcp"; "dst_port"; "80"; "action"; "drop"]
    _ eq_refl (u8_match KEFIR_MATCH_TYPE_IP_4_L4PROTO 6)) as H.
  destruct H as (Hf & _ & Hmax & Hop).
  - apply elem_of_cons. left. reflexivity.
  - repeat split; assumption.
Defined.

(** * Further properties of the parser *)

Section Coverage.
Context {codec : value_codec} {libc : allocator}.

(** [tcflower_parse_rule] step by step up to the loop. *)
Lemma parse_rule_unfold t0 fam rest :
  tcflower_parse_rule (t0 :: fam :: rest) =
  if (length rest <? 4)%nat then Err (BadArgumentCount rule_args)
  else if negb (t0 =? "protocol") then Err ProtocolKeywordExpected
  else match family_of_token fam with
       | Err e => Err e
       | Ok ethtype => tcflower_parse_rule_body ethtype (skip_flower rest)
       end.
Proof.
  unfold tcflower_parse_rule. simpl length.
  destruct (Nat.ltb_spec (S (S (length rest))) 6) as [Hs|Hl];
    destruct (Nat.ltb_spec (length rest) 4) as [Hs'|Hl']; try lia;
    [reflexivity|].
  unfold run. unfold mbind at 1, parser_bind at 1, cur at 1. cbv beta iota.
  destruct (t0 =? "protocol"); cbn [negb]; [|reflexivity].
  unfold mbind at 1, parser_bind at 1, NEXT_ARG at 1. cbv beta iota.
  unfold mbind at 1, parser_bind at 1. rewrite parse_ethproto_frame.
  destruct (family_of_token fam) as [ethtype|e]; [|reflexivity].
  destruct rest as [|t2 rest]; [simpl in Hl'; lia|].
  unfold mbind at 1, parser_bind at 1, cur at 1. cbv beta iota.
  unfold mbind at 1, parser_bind at 1. unfold skip_flower.
  assert (Hbody : forall c : cursor,
    run (('(matches, _) ←
            (tcflower_parse_rule_loop ethtype
               (replicate KEFIR_MAX_MATCH_PER_RULE zero_match) 0
             : parser (list kefir_match * nat));
          lift (tcflower_check_matchlist matches);;
          action_code ← tcflower_parse_action;
          lift (tcflower_compose_rule matches action_code))
         : parser kefir_rule) c = tcflower_parse_rule_body ethtype c).
  { intros c. unfold run, tcflower_parse_rule_body.
    unfold mbind at 1, parser_bind at 1.
    destruct (tcflower_parse_rule_loop _ _ _ c) as [[[ms i] c1]|e];
      [|reflexivity].
    unfold mbind, parser_bind, lift.
    destruct (tcflower_check_matchlist ms) as [[]|e0]; [|reflexivity].
    destruct (tcflower_parse_action c1) as [[code c2]|e1]; [|reflexivity].
    destruct (tcflower_compose_rule ms code); reflexivity. }
  destruct (t2 =? "flower").
  - unfold NEXT_ARG at 1. cbv beta iota. apply Hbody.
  - unfold mret at 1, parser_ret at 1. apply Hbody.
Qed.

Lemma skip_flower_length c : length c - 1 <= length (skip_flower c) <= length c.
Proof.
  destruct c as [|tok c]; simpl; [lia|]. destruct (tok =? "flower"); simpl; lia.
Qed.

(** X1.  For every token array, codec and allocator, [tcflower_parse_rule]
    never reads a token nor moves its cursor past the end of the array; the
    same holds of its loop from any state. *)
Theorem parse_rule_in_bounds :
  (forall user_rule, tcflower_parse_rule user_rule <> Err CursorOverrun) /\
  (forall ethtype ms i c,
     tcflower_parse_rule_loop ethtype ms i c <> Err CursorOverrun).
Proof.
  split.
  - intros user_rule H. apply parse_rule_err in H. tauto.
  - intros ethtype ms i c H.
    eapply parse_rule_loop_err in H; [|reflexivity]. tauto.
Qed.

(** X2.  On an array of 6 tokens or more the first token is checked before
    the family token: a first token other than [protocol] gives the
    "failed to parse protocol" error whatever follows, and after [protocol] a
    family token other than [ip], [ipv4] and [ipv6] gives UnsupportedProtocol
    carrying that token, whatever the clauses and the action are. *)
Theorem rule_header_errors t0 fam rest :
  4 <= length rest ->
  (t0 <> "protocol" ->
   tcflower_parse_rule (t0 :: fam :: rest) = Err ProtocolKeywordExpected) /\
  (t0 = "protocol" -> fam <> "ip" -> fam <> "ipv4" -> fam <> "ipv6" ->
   tcflower_parse_rule (t0 :: fam :: rest) = Err (UnsupportedProtocol fam)).
Proof.
  intros Hlen. rewrite parse_rule_unfold.
  destruct (Nat.ltb_spec (length rest) 4) as [?|_]; [lia|]. split.
  - intros Hne. apply String.eqb_neq in Hne. rewrite Hne. reflexivity.
  - intros -> H1 H2 H3. simpl.
    destruct (family_of_token fam) as [ethtype|e] eqn:Hfam.
    + apply family_of_token_ok in Hfam. exfalso.
      destruct Hfam as [[[?|?] _]|[? _]]; contradiction.
    + apply family_of_token_err in Hfam as ->. reflexivity.
Qed.

(** X3.  The family tokens [ip] and [ipv4] are synonyms: replacing one by the
    other never changes the outcome of [tcflower_parse_rule]. *)
Theorem ip_ipv4_synonyms t0 rest :
  tcflower_parse_rule (t0 :: "ip" :: rest) =
  tcflower_parse_rule (t0 :: "ipv4" :: rest).
Proof. rewrite !parse_rule_unfold. reflexivity. Qed.

End Coverage.

(** X14.  The allocator is consulted last and for nothing else: when
    [calloc] returns [NULL], [tcflower_parse_rule] fails with
    AllocationFailure exactly on the arrays it accepts when [calloc] succeeds,
    and fails with the same error as then on every other array. *)
Theorem allocation_is_last {codec : value_codec} (user_rule : list string) :
  @tcflower_parse_rule codec calloc_none user_rule =
  match @tcflower_parse_rule codec calloc_some user_rule with
  | Ok _ => Err AllocationFailure
  | Err e => Err e
  end.
Proof.
  destruct user_rule as [|t0 [|fam rest]]; [reflexivity..|].
  rewrite !parse_rule_unfold.
  destruct (length rest <? 4)%nat; [reflexivity|].
  destruct (negb (t0 =? "protocol")); [reflexivity|].
  destruct (family_of_token fam) as [ethtype|e]; [|reflexivity].
  unfold tcflower_parse_rule_body.
  destruct (tcflower_parse_rule_loop _ _ _ _) as [[[ms i] c1]|e];
    [|reflexivity].
  destruct (tcflower_check_matchlist ms) as [[]|e0]; [|reflexivity].
  destruct (tcflower_parse_action c1) as [[code c2]|e1]; reflexivity.
Qed.

Section Clauses.
Context {codec : value_codec} {libc : allocator}.

Lemma in_table_In kw : in_table kw = true <-> In kw match_keywords.
Proof.
  unfold in_table. rewrite existsb_exists. split.
  - intros (x & Hx & E). apply String.eqb_eq in E as ->. exact Hx.
  - intros H. exists kw. split; [exact H|apply String.eqb_refl].
Qed.

Lemma in_table_not_In kw : in_table kw = false <-> ~ In kw match_keywords.
Proof.
  rewrite <- in_table_In. destruct (in_table kw); split; congruence.
Qed.

(** The errors of a clause, by keyword. *)
Lemma clause_err_inv ethtype match0 kw tok e :
  tcflower_clause ethtype match0 kw tok = Err e ->
  (in_table kw = false /\ e = UnsupportedMatchKeyword kw) \/
  (kw = "ip_proto" /\ e = UnsupportedProtocolNumber tok) \/
  (in_table kw = true /\ kw <> "ip_proto" /\ e = MalformedValue tok).
Proof.
  unfold tcflower_clause, run, tcflower_parse_match, tcflower_parse_ipproto.
  parser_unfold. simpl.
  repeat split_once; simpl; intros H; try discriminate H;
    injection H as <-; eqb_facts;
    first [ right; left; split; reflexivity
          | right; right; repeat split; solve [reflexivity|discriminate]
          | left; split; [|reflexivity];
            unfold in_table; simpl;
            repeat match goal with
                   | E : String.eqb _ _ = false |- _ => rewrite E; clear E
                   end; reflexivity ].
Qed.

(** A keyword of the table is never reported as unsupported. *)
Lemma clause_ok_in_table ethtype match0 kw tok m :
  tcflower_clause ethtype match0 kw tok = Ok m -> in_table kw = true.
Proof.
  unfold tcflower_clause, run, tcflower_parse_match, tcflower_parse_ipproto.
  parser_unfold. simpl.
  repeat split_once; simpl; intros H; try discriminate H;
    eqb_facts; reflexivity.
Qed.

(** The family is looked at only under a family-dependent keyword. *)
Lemma parse_match_family_agnostic e1 e2 match0 kw rest :
  family_keyword kw = false ->
  tcflower_parse_match e1 match0 (kw :: rest) =
  tcflower_parse_match e2 match0 (kw :: rest).
Proof.
  intros Hkw. destruct rest as [|tok [|x rest]]; [reflexivity| |];
    unfold tcflower_parse_match, tcflower_parse_ipproto; parser_unfold; simpl;
    repeat split_once; simpl; try reflexivity;
    eqb_facts; discriminate Hkw.
Qed.

End Clauses.

Section Rules.
Context {codec : value_codec} {libc : allocator}.

(** A clause that ends the cursor: the value is parsed, then the second
    token-count check fires. *)
Lemma parse_match_two_tokens ethtype match0 kw tok :
  tcflower_parse_match ethtype match0 [kw; tok] =
  match tcflower_clause ethtype match0 kw tok with
  | Ok _ => Err (BadArgumentCount match_args)
  | Err e => Err e
  end.
Proof.
  unfold tcflower_clause, run, tcflower_parse_match, tcflower_parse_ipproto.
  parser_unfold. simpl.
  repeat split_once; simpl; reflexivity.
Qed.

Lemma parse_rule_loop_clause_err ethtype cl : forall filled ms kw tok rest e,
  Forall2 (clause_parses ethtype) cl ms ->
  length filled + length cl < KEFIR_MAX_MATCH_PER_RULE ->
  tcflower_clause ethtype zero_match kw tok = Err e ->
  rest <> [] ->
  tcflower_parse_rule_loop ethtype (slots filled) (length filled)
    (clause_tokens cl ++ kw :: tok :: rest) = Err e.
Proof.
  induction cl as [|[kw0 tok0] cl IH]; intros filled ms kw tok rest e Hms Hcap He Hne.
  - simpl in *. destruct rest as [|x rest]; [contradiction|].
    rewrite parse_rule_loop_unfold, decide_True by (simpl; lia).
    rewrite slots_next by lia. rewrite parse_match_frame, He. reflexivity.
  - apply Forall2_cons_inv_l in Hms as (m & ms' & Hm & Hms' & ->).
    simpl in *.
    destruct (clause_tokens cl ++ kw :: tok :: rest) as [|x rest'] eqn:Hrest.
    { apply app_eq_nil in Hrest as [_ ?]. discriminate. }
    rewrite parse_rule_loop_unfold, decide_True by (simpl; lia).
    rewrite slots_next by lia. rewrite parse_match_frame.
    unfold clause_parses in Hm. simpl in Hm. rewrite Hm.
    rewrite slots_fill by lia. rewrite <- Hrest.
    replace (S (length filled)) with (length (filled ++ [m]))
      by (rewrite length_app; simpl; lia).
    apply (IH (filled ++ [m]) ms'); try assumption.
    rewrite length_app. simpl. lia.
Qed.

Lemma parse_rule_loop_family_agnostic e1 e2 n : forall ms i c,
  n = KEFIR_MAX_MATCH_PER_RULE - i ->
  Forall (fun t => family_keyword t = false) c ->
  tcflower_parse_rule_loop e1 ms i c = tcflower_parse_rule_loop e2 ms i c.
Proof.
  induction n as [|n IH]; intros ms i c Hn Hc;
    rewrite !(parse_rule_loop_unfold _ ms i c).
  - rewrite !decide_False by lia. reflexivity.
  - destruct (decide _) as [[Hlen Hi]|_]; [|reflexivity].
    destruct c as [|kw rest]; [simpl in Hlen; lia|].
    apply Forall_cons in Hc as [Hkw Hrest].
    rewrite (parse_match_family_agnostic e1 e2 _ kw rest Hkw).
    destruct (tcflower_parse_match e2 (ms !!! i) (kw :: rest))
      as [[m c1]|e] eqn:Hm; [|reflexivity].
    apply parse_match_ok_inv in Hm as (kw' & tok & x & rest' & E & -> & _).
    injection E as <- ->.
    apply Forall_cons in Hrest as [_ Hrest].
    apply IH; [lia|exact Hrest].
Qed.

(** The rule parser on clauses that parse followed by one that does not. *)
Lemma parse_rule_clause_err fam ethtype flower cl ms kw tok rest e :
  family_of_token fam = Ok ethtype ->
  Forall2 (clause_parses ethtype) cl ms ->
  length cl < KEFIR_MAX_MATCH_PER_RULE ->
  tcflower_clause ethtype zero_match kw tok = Err e ->
  rest <> [] ->
  (flower = false -> cl = [] -> kw <> "flower") ->
  6 <= length (rule_tokens fam flower cl (kw :: tok :: rest)) ->
  tcflower_parse_rule (rule_tokens fam flower cl (kw :: tok :: rest)) = Err e.
Proof.
  intros Hfam Hms Hcap He Hne Hfl Hlen.
  rewrite rule_tokens_length in Hlen. unfold rule_tokens.
  rewrite parse_rule_unfold, Hfam.
  destruct (Nat.ltb_spec
              (length ((if flower then ["flower"] else []) ++
                       clause_tokens cl ++ kw :: tok :: rest)) 4) as [Hs|_].
  { rewrite !length_app, clause_tokens_length in Hs.
    destruct flower; simpl in *; lia. }
  simpl negb. cbv iota.
  assert (Hskip : skip_flower ((if flower then ["flower"] else []) ++
                               clause_tokens cl ++ kw :: tok :: rest)
                  = clause_tokens cl ++ kw :: tok :: rest).
  { destruct flower; [reflexivity|]. simpl.
    destruct cl as [|[kw0 tok0] cl]; simpl.
    - specialize (Hfl eq_refl eq_refl). apply String.eqb_neq in Hfl.
      rewrite Hfl. reflexivity.
    - apply Forall2_cons_inv_l in Hms as (m & ms' & Hm & _ & _).
      apply clause_ok_inv in Hm.
      destruct Hm as (_ & _ & _ & _ & _ & _ & _ & Hkw).
      apply String.eqb_neq in Hkw. simpl in Hkw. rewrite Hkw. reflexivity. }
  rewrite Hskip. unfold tcflower_parse_rule_body.
  rewrite <- slots_nil. change 0 with (length (@nil kefir_match)).
  rewrite (parse_rule_loop_clause_err ethtype cl [] ms kw tok rest e);
    auto.
Qed.

(** X5.  The family only matters under a family-dependent keyword: when no
    token after the family token is one of [ip_proto], [ip_tos], [ip_ttl],
    [dst_ip], [src_ip], [dst_port], [src_port], two family tokens that are
    both supported give the same outcome, down to the rule returned. *)
Theorem family_agnostic_rule t0 f1 f2 e1 e2 rest :
  family_of_token f1 = Ok e1 ->
  family_of_token f2 = Ok e2 ->
  Forall (fun t => family_keyword t = false) rest ->
  tcflower_parse_rule (t0 :: f1 :: rest) =
  tcflower_parse_rule (t0 :: f2 :: rest).
Proof.
  intros H1 H2 Hrest. rewrite !parse_rule_unfold, H1, H2.
  destruct (length rest <? 4)%nat; [reflexivity|].
  destruct (negb (t0 =? "protocol")); [reflexivity|].
  unfold tcflower_parse_rule_body.
  rewrite (parse_rule_loop_family_agnostic e1 e2 KEFIR_MAX_MATCH_PER_RULE);
    [reflexivity|reflexivity|].
  destruct rest as [|t rest]; [exact Hrest|]. simpl.
  destruct (t =? "flower"); [|exact Hrest].
  apply Forall_cons in Hrest. tauto.
Qed.

(** X8.  [tcflower_parse_match], given a keyword and a value token at least,
    fails with UnsupportedMatchKeyword carrying the keyword exactly when the
    keyword is not one of the 15 of its table, whatever the codec does; every
    keyword that the source lists as not yet supported is rejected so. *)
Theorem unsupported_keyword_iff :
  (forall ethtype match0 kw tok rest,
     tcflower_parse_match ethtype match0 (kw :: tok :: rest) =
       Err (UnsupportedMatchKeyword kw) <->
     ~ In kw match_keywords) /\
  (forall ethtype match0 kw tok rest,
     In kw reserved_keywords ->
     tcflower_parse_match ethtype match0 (kw :: tok :: rest) =
     Err (UnsupportedMatchKeyword kw)).
Proof.
  assert (Hiff : forall ethtype match0 kw tok rest,
     tcflower_parse_match ethtype match0 (kw :: tok :: rest) =
       Err (UnsupportedMatchKeyword kw) <->
     ~ In kw match_keywords).
  { intros ethtype match0 kw tok rest. rewrite <- in_table_not_In.
    assert (Hclause : tcflower_clause ethtype match0 kw tok =
                        Err (UnsupportedMatchKeyword kw) <->
                      in_table kw = false).
    { split.
      - intros H. apply clause_err_inv in H as [[H _]|[[_ H]|(_ & _ & H)]];
          [exact H|discriminate H..].
      - intros H.
        destruct (tcflower_clause ethtype match0 kw tok) as [m|e] eqn:Hc.
        + apply clause_ok_in_table in Hc. congruence.
        + apply clause_err_inv in Hc as [[_ ->]|[[-> _]|(Ht & _)]];
            [reflexivity|discriminate H|congruence]. }
    rewrite <- Hclause.
    destruct rest as [|x rest];
      [rewrite parse_match_two_tokens|rewrite parse_match_frame];
      destruct (tcflower_clause ethtype match0 kw tok) as [m|e];
      split; intros H; first [discriminate H|injection H as ->; reflexivity]. }
  split; [exact Hiff|].
  intros ethtype match0 kw tok rest Hin. apply Hiff. intros Hkw.
  simpl in Hin.
  repeat (destruct Hin as [<-|Hin];
          [simpl in Hkw; repeat (destruct Hkw as [Hkw|Hkw];
                                 [discriminate Hkw|]); exact Hkw|]).
  exact Hin.
Qed.

(** X9.  A value token that the codec rejects is reported with the error of
    its keyword: under [ip_proto] as UnsupportedProtocolNumber carrying the
    token, under every other keyword of the table as the codec's own failure
    on that token; with three tokens or more these are the only errors of a
    keyword of the table. *)
Theorem rejected_value_errors ethtype match0 kw tok x rest e :
  In kw match_keywords ->
  tcflower_parse_match ethtype match0 (kw :: tok :: x :: rest) = Err e ->
  (kw = "ip_proto" /\ e = UnsupportedProtocolNumber tok) \/
  (kw <> "ip_proto" /\ e = MalformedValue tok).
Proof.
  intros Hin. apply in_table_In in Hin. rewrite parse_match_frame.
  destruct (tcflower_clause ethtype match0 kw tok) as [m|e'] eqn:Hc;
    [discriminate|].
  intros [= <-].
  apply clause_err_inv in Hc as [[Ht _]|[?|(_ & ? & ?)]]; [congruence|auto..].
Qed.

(** X10.  [tcflower_parse_match] needs three tokens to succeed, although its
    first check asks for two: with fewer than 2 tokens it fails with
    BadArgumentCount at once; on exactly 2 tokens it fails too, with
    BadArgumentCount when the clause itself parses; and when it succeeds it
    has consumed exactly the keyword and the value token and leaves at least
    one token. *)
Theorem parse_match_token_count :
  (forall ethtype match0 c,
     length c < 2 ->
     tcflower_parse_match ethtype match0 c =
     Err (BadArgumentCount match_args)) /\
  (forall ethtype match0 kw tok,
     (exists e, tcflower_parse_match ethtype match0 [kw; tok] = Err e) /\
     (forall m, tcflower_clause ethtype match0 kw tok = Ok m ->
        tcflower_parse_match ethtype match0 [kw; tok] =
        Err (BadArgumentCount match_args))) /\
  (forall ethtype match0 c m c',
     tcflower_parse_match ethtype match0 c = Ok (m, c') ->
     c' = drop 2 c /\ 1 <= length c').
Proof.
  split; [|split].
  - intros ethtype match0 [|t [|t' c]] Hlen; simpl in Hlen; try lia;
      reflexivity.
  - intros ethtype match0 kw tok. rewrite parse_match_two_tokens.
    destruct (tcflower_clause ethtype match0 kw tok) as [m|e]; split; eauto.
    + intros m' [=].
  - intros ethtype match0 c m c' H.
    apply parse_match_ok_inv in H as (kw & tok & x & rest & -> & -> & _).
    simpl. split; [reflexivity|lia].
Qed.

(** X16.  The protocol names [tcp], [udp], [sctp], [icmp] and [icmpv6]
    stand for the protocol numbers 6, 17, 132, 1 and 58: when the codec's
    store helper accepts these numbers on 8 bits, [tcflower_parse_ipproto]
    yields the number for the name without consulting the number parser, and
    an [ip_proto] clause with the name produces the L4-protocol match of the
    selected family holding that number. *)
Theorem ipproto_alias_numbers :
  Forall (fun a => parse_check_and_store_uint a.2 8 false = Some a.2)
         ipproto_aliases ->
  ipproto_aliases =
    [("tcp", 6%Z); ("udp", 17%Z); ("sctp", 132%Z); ("icmp", 1%Z);
     ("icmpv6", 58%Z)] /\
  forall name n, In (name, n) ipproto_aliases ->
    tcflower_parse_ipproto name = Ok n /\
    forall ethtype match0,
      tcflower_clause ethtype match0 "ip_proto" name =
      Ok (set_match_type
            (if decide (ethtype = TCFLOWER_ETH_PROTO_IPV6)
             then KEFIR_MATCH_TYPE_IP_6_L4PROTO
             else KEFIR_MATCH_TYPE_IP_4_L4PROTO)
            (set_value_data (data_u8 n)
               (set_comp_operator OPER_EQUAL match0))).
Proof.
  intros Hstore. split; [reflexivity|]. intros name n Hin.
  assert (Hn : parse_check_and_store_uint n 8 false = Some n).
  { rewrite Forall_forall in Hstore.
    apply (Hstore (name, n)), list_elem_of_In, Hin. }
  assert (Hp : tcflower_parse_ipproto name = Ok n).
  { simpl in Hin.
    repeat (destruct Hin as [[= <- <-]|Hin];
            [unfold tcflower_parse_ipproto; simpl; rewrite Hn; reflexivity|]).
    contradiction. }
  split; [exact Hp|]. intros ethtype match0.
  unfold tcflower_clause, run, tcflower_parse_match. parser_unfold. simpl.
  rewrite Hp. destruct (bool_decide_reflect (ethtype = TCFLOWER_ETH_PROTO_IPV6));
    [rewrite decide_True by assumption|rewrite decide_False by assumption];
    reflexivity.
Qed.

End Rules.

Section MatchList.
Context {codec : value_codec} {libc : allocator}.

Lemma existsb_Permutation {A} (f : A -> bool) l k :
  l ≡ₚ k -> existsb f l = existsb f k.
Proof.
  induction 1 as [|x l k _ IH|x y l|l k j _ IH1 _ IH2]; simpl.
  - reflexivity.
  - rewrite IH. reflexivity.
  - destruct (f x), (f y); reflexivity.
  - congruence.
Qed.

Lemma upto_unspec_cut n m post : forall pre,
  match_type m = KEFIR_MATCH_TYPE_UNSPEC ->
  upto_unspec (take n (pre ++ m :: post)) = upto_unspec (take n pre).
Proof.
  intros pre Hm. revert n.
  induction pre as [|a pre IH]; intros [|n]; simpl; try reflexivity.
  - rewrite decide_True by assumption. reflexivity.
  - destruct (decide _); [reflexivity|]. rewrite IH. reflexivity.
Qed.

Lemma check_matchlist_clauses_ok ethtype (cl : list (string * string)) ms :
  Forall2 (clause_parses ethtype) cl ms ->
  length cl <= KEFIR_MAX_MATCH_PER_RULE ->
  (Exists (fun kv => kv.1 = "dst_port" \/ kv.1 = "src_port") cl ->
   Exists (fun kv => kv.1 = "ip_proto") cl) ->
  tcflower_check_matchlist (slots ms) = Ok tt.
Proof.
  intros Hms Hcap Hport.
  rewrite (check_matchlist_clauses ethtype cl ms Hms Hcap).
  destruct (existsb _ cl && negb (existsb _ cl)) eqn:E; [|reflexivity].
  apply andb_true_iff in E as [E1 E2].
  apply existsb_port_keyword, Hport, existsb_proto_keyword in E1.
  rewrite E1 in E2. discriminate.
Qed.

(** X11.  [tcflower_check_matchlist] fails exactly when the match list of
    the array (the slots before the first UNSPEC one, among the first 5)
    holds a port match and no L4-protocol match, whatever the families of the
    matches are; MissingRequiredMatch is its only error. *)
Theorem check_matchlist_iff slots0 :
  (tcflower_check_matchlist slots0 = Err MissingRequiredMatch <->
   (exists m, m ∈ match_list slots0 /\ is_l4port (match_type m) = true) /\
   (forall m, m ∈ match_list slots0 -> is_l4proto (match_type m) = false)) /\
  (forall e, tcflower_check_matchlist slots0 = Err e ->
     e = MissingRequiredMatch).
Proof.
  rewrite check_matchlist_spec.
  destruct (existsb (fun m => is_l4port (match_type m)) (match_list slots0))
    eqn:Eport;
    destruct (existsb (fun m => is_l4proto (match_type m)) (match_list slots0))
    eqn:Eproto; simpl.
  - split; [|discriminate]. split; [discriminate|]. intros [_ Hno].
    apply existsb_exists in Eproto as (m & Hin & Hm).
    apply list_elem_of_In in Hin. rewrite (Hno m Hin) in Hm. discriminate.
  - split; [|intros e [= <-]; reflexivity]. split; [|reflexivity].
    intros _. split.
    + apply existsb_exists in Eport as (m & Hin & Hm).
      exists m. split; [apply list_elem_of_In, Hin|exact Hm].
    + intros m Hin. destruct (is_l4proto (match_type m)) eqn:Hm; [|reflexivity].
      assert (existsb (fun m => is_l4proto (match_type m)) (match_list slots0)
              = true) as E.
      { apply existsb_exists. exists m.
        split; [apply list_elem_of_In, Hin|exact Hm]. }
      congruence.
  - split; [|discriminate]. split; [discriminate|]. intros [(m & Hin & Hm) _].
    assert (existsb (fun m => is_l4port (match_type m)) (match_list slots0)
            = true) as E.
    { apply existsb_exists. exists m.
      split; [apply list_elem_of_In, Hin|exact Hm]. }
    congruence.
  - split; [|discriminate]. split; [discriminate|]. intros [(m & Hin & Hm) _].
    assert (existsb (fun m => is_l4port (match_type m)) (match_list slots0)
            = true) as E.
    { apply existsb_exists. exists m.
      split; [apply list_elem_of_In, Hin|exact Hm]. }
    congruence.
Qed.

(** X12.  [tcflower_check_matchlist] stops at the first UNSPEC slot and
    reads no more than 5 slots: what is stored from an UNSPEC slot on, or
    beyond the fifth slot, does not change its outcome. *)
Theorem check_matchlist_sentinel :
  (forall pre m post,
     match_type m = KEFIR_MATCH_TYPE_UNSPEC ->
     tcflower_check_matchlist (pre ++ m :: post) =
     tcflower_check_matchlist pre) /\
  (forall slots0 beyond,
     KEFIR_MAX_MATCH_PER_RULE <= length slots0 ->
     tcflower_check_matchlist (slots0 ++ beyond) =
     tcflower_check_matchlist slots0).
Proof.
  split.
  - intros pre m post Hm. rewrite !check_matchlist_spec. unfold match_list.
    rewrite (upto_unspec_cut _ m post pre Hm). reflexivity.
  - intros slots0 beyond Hlen. rewrite !check_matchlist_spec.
    unfold match_list. rewrite take_app_le by exact Hlen. reflexivity.
Qed.

(** X13.  The outcome of [tcflower_check_matchlist] does not depend on the
    order of the matches: two arrays whose match lists are permutations of
    each other are both accepted or both rejected. *)
Theorem check_matchlist_order slots1 slots2 :
  match_list slots1 ≡ₚ match_list slots2 ->
  tcflower_check_matchlist slots1 = tcflower_check_matchlist slots2.
Proof.
  intros Hperm. rewrite !check_matchlist_spec.
  rewrite (existsb_Permutation _ _ _ Hperm).
  rewrite (existsb_Permutation (fun m => is_l4proto (match_type m)) _ _ Hperm).
  reflexivity.
Qed.

(** X17.  After clauses that parse and pass the match-list check, a
    malformed action clause is reported by what is wrong with it: a single
    remaining token gives BadArgumentCount, two tokens of which the first is
    not [action] give MissingActionKeyword, whatever the second is, and
    [action] followed by a token other than [pass] and [drop] gives
    UnsupportedActionCode.  On success [tcflower_parse_action] has consumed
    [action] only: the cursor is left on the code token. *)
Theorem action_clause_errors fam ethtype flower cl ms :
  family_of_token fam = Ok ethtype ->
  Forall2 (clause_parses ethtype) cl ms ->
  1 <= length cl <= KEFIR_MAX_MATCH_PER_RULE ->
  (Exists (fun kv => kv.1 = "dst_port" \/ kv.1 = "src_port") cl ->
   Exists (fun kv => kv.1 = "ip_proto") cl) ->
  (forall t,
     6 <= length (rule_tokens fam flower cl [t]) ->
     tcflower_parse_rule (rule_tokens fam flower cl [t]) =
     Err (BadArgumentCount action_args)) /\
  (forall t a,
     t <> "action" ->
     tcflower_parse_rule (rule_tokens fam flower cl [t; a]) =
     Err MissingActionKeyword) /\
  (forall a,
     a <> "pass" -> a <> "drop" ->
     tcflower_parse_rule (rule_tokens fam flower cl ["action"; a]) =
     Err UnsupportedActionCode) /\
  (forall c code c',
     tcflower_parse_action c = Ok (code, c') ->
     c = "action" :: c' /\ length c' = 1).
Proof.
  intros Hfam Hms [Hn1 Hn5] Hport.
  pose proof (check_matchlist_clauses_ok ethtype cl ms Hms Hn5 Hport) as Hchk.
  assert (Hcl : cl <> []) by (destruct cl; simpl in *; [lia|discriminate]).
  assert (Hrun : forall tail, tail <> [] -> length tail <= 2 ->
            6 <= length (rule_tokens fam flower cl tail) ->
            tcflower_parse_rule (rule_tokens fam flower cl tail) =
            match tcflower_parse_action tail with
            | Err e => Err e
            | Ok (a, _) => tcflower_compose_rule (slots ms) a
            end).
  { intros tail Hne Hlen H6.
    rewrite (parse_rule_tokens fam ethtype flower cl ms tail Hfam Hms);
      auto.
    rewrite Hchk. reflexivity. }
  split; [|split; [|split]].
  - intros t H6. rewrite Hrun; [reflexivity|discriminate|simpl; lia|exact H6].
  - intros t a Ht. apply String.eqb_neq in Ht. rewrite Hrun.
    + unfold tcflower_parse_action. parser_unfold. simpl. rewrite Ht.
      reflexivity.
    + discriminate.
    + simpl. lia.
    + rewrite rule_tokens_length. simpl. lia.
  - intros a Hp Hd. apply String.eqb_neq in Hp, Hd. rewrite Hrun.
    + unfold tcflower_parse_action. parser_unfold. simpl. rewrite Hp, Hd.
      reflexivity.
    + discriminate.
    + simpl. lia.
    + rewrite rule_tokens_length. simpl. lia.
  - intros c code c' H.
    destruct c as [|t0 [|act [|x rest]]]; try discriminate H.
    revert H. unfold tcflower_parse_action. parser_unfold. simpl.
    destruct (t0 =? "action") eqn:E0; simpl; [|discriminate].
    apply String.eqb_eq in E0 as ->.
    destruct (act =? "pass"); [intros [= <- <-]; auto|].
    destruct (act =? "drop"); [intros [= <- <-]; auto|discriminate].
Qed.

End MatchList.

Section Widths.
Context {codec : value_codec} {libc : allocator}.

(** X18.  The value of a plain-uint clause is accepted exactly when
    [parse_uint] accepts the token at the width of the keyword (12 bits for
    [vlan_id] and [cvlan_id], 3 for [vlan_prio] and [cvlan_prio], 16 for the
    ethertypes and the ports), and the number it returns is the one stored in
    the match; [ip_tos] and [ip_ttl] are read at 8 bits in both families. *)
Theorem uint_keyword_width kw w :
  In (kw, w) uint_keyword_widths ->
  forall ethtype match0 tok,
    (forall m, tcflower_clause ethtype match0 kw tok = Ok m ->
       exists v, parse_uint tok w = Some v /\
         (data (value m) = data_u16 v \/ data (value m) = data_u8 v)) /\
    (forall v, parse_uint tok w = Some v ->
       exists m, tcflower_clause ethtype match0 kw tok = Ok m) /\
    (forall kw8 m, kw8 = "ip_tos" \/ kw8 = "ip_ttl" ->
       tcflower_clause ethtype match0 kw8 tok = Ok m ->
       exists v, parse_uint_slash_mask tok 8 (mask match0) = Some (v, mask m)
                 /\ data (value m) = data_u8 v).
Proof.
  intros Hin ethtype match0 tok. split; [|split].
  - intros m. simpl in Hin.
    repeat (destruct Hin as [[= <- <-]|Hin];
      [unfold tcflower_clause, run, tcflower_parse_match; parser_unfold; simpl;
       destruct (parse_uint tok _) as [v|]; simpl; [|discriminate];
       intros [= <-]; exists v; simpl; auto|]).
    contradiction.
  - intros v Hv. simpl in Hin.
    repeat (destruct Hin as [[= <- <-]|Hin];
      [unfold tcflower_clause, run, tcflower_parse_match; parser_unfold; simpl;
       rewrite Hv; simpl; eauto|]).
    contradiction.
  - intros kw8 m [->| ->];
      unfold tcflower_clause, run, tcflower_parse_match; parser_unfold; simpl;
      destruct (parse_uint_slash_mask tok 8 (mask match0)) as [[v k]|];
      simpl; try discriminate;
      intros [= <-]; exists v; simpl; auto.
Qed.

(** X19.  [tcflower_parse_match] tells IPv6 from everything else: under any
    family context other than IPv6, the unset and the "other" one included, it
    behaves as under IPv4. *)
Theorem non_ipv6_is_ipv4 ethtype match0 c :
  ethtype <> TCFLOWER_ETH_PROTO_IPV6 ->
  tcflower_parse_match ethtype match0 c =
  tcflower_parse_match TCFLOWER_ETH_PROTO_IPV4 match0 c.
Proof.
  intros Hne. unfold tcflower_parse_match.
  rewrite (bool_decide_eq_false_2 _ Hne).
  rewrite (bool_decide_eq_false_2
             (TCFLOWER_ETH_PROTO_IPV4 = TCFLOWER_ETH_PROTO_IPV6))
    by discriminate.
  reflexivity.
Qed.

End Widths.

(** * The further properties on concrete token arrays *)

Lemma rule_header_errors_witness :
  parse_with_room ["proto"; "ip"; "vlan_id"; "5"; "action"; "drop"] =
    Err ProtocolKeywordExpected /\
  parse_with_room ["protocol"; "IPv4"; "vlan_id"; "5"; "action"; "drop"] =
    Err (UnsupportedProtocol "IPv4").
Proof.
  split.
  - apply (proj1 (@rule_header_errors kefir_codec calloc_some "proto" "ip"
                    ["vlan_id"; "5"; "action"; "drop"] ltac:(simpl; lia))).
    discriminate.
  - apply (proj2 (@rule_header_errors kefir_codec calloc_some "protocol" "IPv4"
                    ["vlan_id"; "5"; "action"; "drop"] ltac:(simpl; lia)));
      [reflexivity|discriminate..].
Defined.

Lemma family_agnostic_rule_witness :
  parse_with_room
    ["protocol"; "ip"; "vlan_id"; "5"; "dst_mac"; "1:2:3:4:5:6"; "action"; "drop"]
  = parse_with_room
    ["protocol"; "ipv6"; "vlan_id"; "5"; "dst_mac"; "1:2:3:4:5:6"; "action";
     "drop"].
Proof.
  apply (@family_agnostic_rule kefir_codec calloc_some "protocol" "ip" "ipv6"
           TCFLOWER_ETH_PROTO_IPV4 TCFLOWER_ETH_PROTO_IPV6).
  - reflexivity.
  - reflexivity.
  - repeat constructor.
Defined.

Lemma unsupported_keyword_iff_witness :
  @tcflower_parse_match kefir_codec TCFLOWER_ETH_PROTO_IPV4 zero_match
    ["tcp_flags"; "0x12"; "action"; "drop"] =
  Err (UnsupportedMatchKeyword "tcp_flags").
Proof.
  apply (proj2 (@unsupported_keyword_iff kefir_codec)).
  simpl. tauto.
Defined.

Lemma rejected_value_errors_witness :
  ("ip_proto" = "ip_proto" /\
   UnsupportedProtocolNumber "300" = UnsupportedProtocolNumber "300") \/
  ("ip_proto" <> "ip_proto" /\
   UnsupportedProtocolNumber "300" = MalformedValue "300").
Proof.
  apply (@rejected_value_errors kefir_codec TCFLOWER_ETH_PROTO_IPV4 zero_match
           "ip_proto" "300" "action" ["drop"]).
  - simpl. tauto.
  - reflexivity.
Defined.

Lemma parse_match_token_count_witness :
  @tcflower_parse_match kefir_codec TCFLOWER_ETH_PROTO_IPV4 zero_match
    ["vlan_id"] = Err (BadArgumentCount match_args) /\
  @tcflower_parse_match kefir_codec TCFLOWER_ETH_PROTO_IPV4 zero_match
    ["vlan_id"; "5"] = Err (BadArgumentCount match_args).
Proof.
  pose proof (@parse_match_token_count kefir_codec) as (Hfew & Htwo & _).
  split.
  - apply Hfew. simpl. lia.
  - apply (proj2 (Htwo TCFLOWER_ETH_PROTO_IPV4 zero_match "vlan_id" "5")
             (u16_match KEFIR_MATCH_TYPE_VLAN_ID 5)).
    reflexivity.
Defined.

Lemma check_matchlist_iff_witness :
  tcflower_check_matchlist
    (slots [u16_match KEFIR_MATCH_TYPE_IP_6_L4PORT_SRC 53]) =
  Err MissingRequiredMatch.
Proof.
  apply (proj1 (check_matchlist_iff _)). split.
  - exists (u16_match KEFIR_MATCH_TYPE_IP_6_L4PORT_SRC 53).
    split; [apply elem_of_cons; left|]; reflexivity.
  - intros m Hin. apply elem_of_cons in Hin as [->|Hin]; [reflexivity|].
    apply elem_of_nil in Hin. contradiction.
Defined.

Lemma check_matchlist_sentinel_witness :
  tcflower_check_matchlist
    ([u16_match KEFIR_MATCH_TYPE_VLAN_ID 5] ++
     zero_match :: [u16_match KEFIR_MATCH_TYPE_IP_4_L4PORT_DST 80]) =
  tcflower_check_matchlist [u16_match KEFIR_MATCH_TYPE_VLAN_ID 5].
Proof.
  apply (proj1 check_matchlist_sentinel). reflexivity.
Defined.

Lemma check_matchlist_order_witness :
  tcflower_check_matchlist
    [u16_match KEFIR_MATCH_TYPE_IP_4_L4PORT_DST 80;
     u8_match KEFIR_MATCH_TYPE_IP_4_L4PROTO 6] =
  tcflower_check_matchlist
    [u8_match KEFIR_MATCH_TYPE_IP_4_L4PROTO 6;
     u16_match KEFIR_MATCH_TYPE_IP_4_L4PORT_DST 80].
Proof.
  apply check_matchlist_order. apply perm_swap.
Defined.

Lemma ipproto_alias_numbers_witness :
  @tcflower_parse_ipproto kefir_codec "sctp" = Ok 132%Z.
Proof.
  refine (proj1 (proj2 (@ipproto_alias_numbers kefir_codec _) "sctp" 132%Z _)).
  - repeat constructor.
  - simpl. tauto.
Defined.

Lemma action_clause_errors_witness :
  parse_with_room
    (rule_tokens "ip" false [("vlan_id", "5")] ["vlan_prio"; "3"]) =
  Err MissingActionKeyword.
Proof.
  refine (proj1 (proj2 (@action_clause_errors kefir_codec calloc_some "ip"
            TCFLOWER_ETH_PROTO_IPV4 false [("vlan_id", "5")]
            [u16_match KEFIR_MATCH_TYPE_VLAN_ID 5] _ _ _ _)) _ _ _).
  - reflexivity.
  - repeat constructor.
  - simpl. unfold KEFIR_MAX_MATCH_PER_RULE. lia.
  - intros H. apply Exists_cons in H as [[H|H]|H]; [discriminate H..|].
    apply Exists_nil in H. contradiction.
  - discriminate.
Defined.

Lemma uint_keyword_width_witness :
  exists m,
    @tcflower_clause kefir_codec TCFLOWER_ETH_PROTO_IPV4 zero_match
      "vlan_prio" "7" = Ok m.
Proof.
  refine (proj1 (proj2 (@uint_keyword_width kefir_codec "vlan_prio" 3 _
            TCFLOWER_ETH_PROTO_IPV4 zero_match "7")) 7%Z _).
  - simpl. tauto.
  - reflexivity.
Defined.

Lemma non_ipv6_is_ipv4_witness :
  @tcflower_parse_match kefir_codec TCFLOWER_ETH_PROTO_UNSPEC zero_match
    ["dst_ip"; "10.0.0.1"; "action"; "drop"] =
  @tcflower_parse_match kefir_codec TCFLOWER_ETH_PROTO_IPV4 zero_match
    ["dst_ip"; "10.0.0.1"; "action"; "drop"].
Proof.
  apply (@non_ipv6_is_ipv4 kefir_codec). discriminate.
Defined.

(** * The parser with the 32-bit counter *)

Section Counter.
Context {codec : value_codec} {libc : allocator}.

(** [tcflower_parse_match] on a cursor that holds a clause and counts it. *)
Lemma u32_parse_match_clause ethtype match0 kw tok rest n :
  (2 <= n < U32.UINT_MOD)%Z ->
  U32.tcflower_parse_match ethtype match0
    {| U32.argv := kw :: tok :: rest; U32.argc := n |} =
  match tcflower_clause ethtype match0 kw tok with
  | Ok m =>
    if (n - 2 <? 1)%Z then Err (BadArgumentCount match_args)
    else Ok (m, {| U32.argv := rest; U32.argc := (n - 2)%Z |})
  | Err e => Err e
  end.
Proof.
  intros Hn.
  assert (E1 : ((n - 1) mod U32.UINT_MOD = n - 1)%Z)
    by (apply Z.mod_small; lia).
  assert (E2 : ((n - 1 - 1) mod U32.UINT_MOD = n - 2)%Z)
    by (rewrite Z.mod_small; lia).
  assert (E0 : (n <? 2)%Z = false) by (apply Z.ltb_ge; lia).
  unfold U32.tcflower_parse_match, tcflower_clause, run, tcflower_parse_match,
    tcflower_parse_ipproto.
  u32_unfold. u32_unfold. parser_unfold. simpl. rewrite E0. simpl.
  repeat (split_once; simpl; rewrite ?E1; simpl);
    repeat match goal with
           | C : ?o = _ |- context [?o] => rewrite C; simpl
           end;
    rewrite ?E1, ?E2; try reflexivity;
    destruct (n - 2 <? 1)%Z; reflexivity.
Qed.

Lemma counted_length c :
  in_range c -> length (counted c) = Z.to_nat (U32.argc c).
Proof.
  intros [[H0 Hle] _]. unfold counted. rewrite length_take. lia.
Qed.

Lemma u32_parse_match_sim ethtype match0 c :
  in_range c ->
  same_outcome (U32.tcflower_parse_match ethtype match0 c)
               (tcflower_parse_match ethtype match0 (counted c)).
Proof.
  destruct c as [av n]. unfold in_range, counted. simpl.
  intros [[H0 Hle] Hlt].
  destruct (Z.lt_ge_cases n 2) as [Hfew|Hmany].
  - assert (E : U32.tcflower_parse_match ethtype match0
                  {| U32.argv := av; U32.argc := n |} =
                Err (BadArgumentCount match_args)).
    { unfold U32.tcflower_parse_match. u32_unfold. simpl.
      rewrite (proj2 (Z.ltb_lt n 2) Hfew). reflexivity. }
    rewrite E.
    assert (Hlen : length (take (Z.to_nat n) av) < 2)
      by (rewrite length_take; lia).
    destruct (take (Z.to_nat n) av) as [|a [|b l]]; simpl in Hlen; try lia;
      reflexivity.
  - destruct av as [|kw [|tok rest]]; simpl in Hle; try lia.
    rewrite u32_parse_match_clause by lia.
    replace (Z.to_nat n) with (S (S (Z.to_nat (n - 2)))) by lia.
    simpl take.
    destruct (Z.ltb_spec (n - 2) 1) as [Htwo|Hmore].
    + replace (Z.to_nat (n - 2)) with 0 by lia. rewrite take_0.
      rewrite parse_match_two_tokens.
      destruct (tcflower_clause ethtype match0 kw tok); reflexivity.
    + destruct rest as [|x rest]; [simpl in Hle; lia|].
      replace (Z.to_nat (n - 2)) with (S (Z.to_nat (n - 3))) by lia.
      simpl take. rewrite parse_match_frame.
      destruct (tcflower_clause ethtype match0 kw tok); [|reflexivity].
      simpl. unfold in_range, counted. simpl.
      replace (Z.to_nat (n - 2)) with (S (Z.to_nat (n - 3))) by lia.
      simpl in Hle. repeat split; try lia. 
Qed.

Lemma u32_parse_rule_loop_unfold ethtype ms i c :
  U32.tcflower_parse_rule_loop ethtype ms i c =
  if decide ((2 < U32.argc c)%Z /\ i < KEFIR_MAX_MATCH_PER_RULE) then
    match U32.tcflower_parse_match ethtype (ms !!! i) c with
    | Ok (m, c') =>
      U32.tcflower_parse_rule_loop ethtype (<[i := m]> ms) (S i) c'
    | Err e => Err e
    end
  else Ok (ms, i, c).
Proof.
  rewrite U32.tcflower_parse_rule_loop_equation_1.
  destruct (decide _) as [Hg|Hg]; simpl; [|reflexivity].
  destruct (U32.tcflower_parse_match ethtype (ms !!! i) c) as [[m c']|e];
    reflexivity.
Qed.

Lemma u32_parse_rule_loop_sim ethtype n : forall ms i c,
  n = KEFIR_MAX_MATCH_PER_RULE - i ->
  in_range c ->
  same_outcome (U32.tcflower_parse_rule_loop ethtype ms i c)
               (tcflower_parse_rule_loop ethtype ms i (counted c)).
Proof.
  induction n as [|n IH]; intros ms i c Hn Hc;
    rewrite u32_parse_rule_loop_unfold, parse_rule_loop_unfold;
    pose proof (counted_length c Hc) as Hlen;
    pose proof Hc as [[H0 _] _].
  - rewrite !decide_False by lia. simpl. auto.
  - destruct (decide ((2 < U32.argc c)%Z /\ i < KEFIR_MAX_MATCH_PER_RULE))
      as [[Hg Hi]|Hg].
    + rewrite decide_True by lia.
      pose proof (u32_parse_match_sim ethtype (ms !!! i) c Hc) as Hm.
      destruct (U32.tcflower_parse_match ethtype (ms !!! i) c)
        as [[m1 c1]|e1];
        destruct (tcflower_parse_match ethtype (ms !!! i) (counted c))
        as [[m2 c2]|e2]; simpl in Hm; try contradiction.
      * destruct Hm as (-> & Hc1 & <-). apply IH; [lia|exact Hc1].
      * exact Hm.
    + rewrite decide_False by lia. simpl. auto.
Qed.

Lemma u32_parse_action_sim c :
  in_range c ->
  same_outcome (U32.tcflower_parse_action c)
               (tcflower_parse_action (counted c)).
Proof.
  destruct c as [av n]. unfold in_range, counted. simpl.
  intros [[H0 Hle] Hlt].
  destruct (Z.eqb_spec n 2) as [->|Hne].
  - destruct av as [|t0 [|act rest]]; simpl in Hle; try lia.
    simpl take. rewrite take_0.
    unfold U32.tcflower_parse_action, tcflower_parse_action.
    u32_unfold. parser_unfold. simpl.
    destruct (t0 =? "action"); simpl; [|reflexivity].
    assert (Hone : in_range {| U32.argv := act :: rest; U32.argc := 1 |}).
    { unfold in_range. simpl. unfold U32.UINT_MOD. lia. }
    destruct (act =? "pass"); [simpl; auto|].
    destruct (act =? "drop"); simpl; auto.
  - assert (E : U32.tcflower_parse_action {| U32.argv := av; U32.argc := n |}
                = Err (BadArgumentCount action_args)).
    { unfold U32.tcflower_parse_action. u32_unfold. simpl.
      rewrite (proj2 (Z.eqb_neq n 2) Hne). reflexivity. }
    rewrite E, parse_action_count; [reflexivity|].
    rewrite length_take. lia.
Qed.

Lemma u32_parse_ethproto_frame fam rest n :
  U32.tcflower_parse_ethproto {| U32.argv := fam :: rest; U32.argc := n |} =
  match family_of_token fam with
  | Ok ethtype =>
    Ok (ethtype,
        {| U32.argv := rest; U32.argc := ((n - 1) mod U32.UINT_MOD)%Z |})
  | Err e => Err e
  end.
Proof.
  unfold family_of_token, run, U32.tcflower_parse_ethproto,
    tcflower_parse_ethproto.
  u32_unfold. parser_unfold. simpl.
  destruct ((fam =? "ip") || (fam =? "ipv4")); [reflexivity|].
  destruct (fam =? "ipv6"); reflexivity.
Qed.

Lemma counted_tokens_small l :
  (Z.of_nat (length l) < U32.UINT_MOD)%Z -> counted_tokens l = l.
Proof.
  intros H. unfold counted_tokens.
  rewrite Z.mod_small by lia. rewrite Nat2Z.id. apply take_ge. lia.
Qed.

Lemma counted_tokens_in_range l :
  in_range {| U32.argv := l;
              U32.argc := (Z.of_nat (length l) mod U32.UINT_MOD)%Z |}.
Proof.
  unfold in_range. simpl.
  assert (HM : (0 < U32.UINT_MOD)%Z) by (unfold U32.UINT_MOD; lia).
  pose proof (Z.mod_pos_bound (Z.of_nat (length l)) _ HM).
  pose proof (Z.mod_le (Z.of_nat (length l)) _ ltac:(lia) HM).
  lia.
Qed.

(** The part of [tcflower_parse_rule] from the loop on, with the 32-bit
    counter, is the part on the counted tokens. *)
Lemma u32_rule_body_sim ethtype c :
  in_range c ->
  U32.run (('(matches, _) ←
              (U32.tcflower_parse_rule_loop ethtype
                 (replicate KEFIR_MAX_MATCH_PER_RULE zero_match) 0
               : U32.parser (list kefir_match * nat));
            U32.lift (tcflower_check_matchlist matches);;
            action_code ← U32.tcflower_parse_action;
            U32.lift (tcflower_compose_rule matches action_code))
           : U32.parser kefir_rule) c
  = tcflower_parse_rule_body ethtype (counted c).
Proof.
  intros Hc. unfold U32.run, tcflower_parse_rule_body.
  unfold mbind at 1, U32.parser_bind at 1.
  pose proof (u32_parse_rule_loop_sim ethtype _
                (replicate KEFIR_MAX_MATCH_PER_RULE zero_match) 0 c eq_refl Hc)
    as Hs.
  destruct (U32.tcflower_parse_rule_loop _ _ _ c) as [[[ms i] c1]|e];
    destruct (tcflower_parse_rule_loop _ _ _ (counted c))
      as [[[ms' i'] c1']|e']; simpl in Hs; try contradiction.
  - destruct Hs as (E & Hc1 & <-). injection E as <- <-.
    unfold mbind, U32.parser_bind, U32.lift.
    destruct (tcflower_check_matchlist ms) as [[]|e0]; [|reflexivity].
    pose proof (u32_parse_action_sim c1 Hc1) as Ha.
    destruct (U32.tcflower_parse_action c1) as [[code c2]|e1];
      destruct (tcflower_parse_action (counted c1)) as [[code' c2']|e1'];
      simpl in Ha; try contradiction.
    + destruct Ha as (<- & _ & _).
      destruct (tcflower_compose_rule ms code); reflexivity.
    + subst. reflexivity.
  - subst. reflexivity.
Qed.

(** [tcflower_parse_rule] with the 32-bit counter, step by step up to the
    loop: the header is read from the array, the rest runs on the tokens that
    the counter accounts for. *)
Lemma u32_parse_rule_unfold t0 fam rest :
  U32.tcflower_parse_rule (t0 :: fam :: rest) =
  if (length rest <? 4)%nat then Err (BadArgumentCount rule_args)
  else if negb (t0 =? "protocol") then Err ProtocolKeywordExpected
  else match family_of_token fam with
       | Err e => Err e
       | Ok ethtype =>
         tcflower_parse_rule_body ethtype (counted_tokens (skip_flower rest))
       end.
Proof.
  assert (HM : (0 < U32.UINT_MOD)%Z) by (unfold U32.UINT_MOD; lia).
  unfold U32.tcflower_parse_rule. cbv zeta.
  destruct (Z.ltb_spec (Z.of_nat (length (t0 :: fam :: rest))) 6) as [Hs|Hl];
    destruct (Nat.ltb_spec (length rest) 4) as [Hs'|Hl'];
    simpl length in *; try lia; [reflexivity|].
  assert (E2 : (((Z.of_nat (S (S (length rest))) mod U32.UINT_MOD - 1)
                 mod U32.UINT_MOD - 1) mod U32.UINT_MOD
                = Z.of_nat (length rest) mod U32.UINT_MOD)%Z).
  { rewrite Zminus_mod_idemp_l, <- Z.sub_add_distr, Zminus_mod_idemp_l.
    f_equal. lia. }
  remember (Z.of_nat (S (S (length rest))) mod U32.UINT_MOD)%Z as n0 eqn:Hn0.
  clear Hn0.
  unfold U32.run. unfold mbind at 1, U32.parser_bind at 1, U32.cur at 1.
  cbn [U32.argv U32.argc].
  destruct (t0 =? "protocol"); cbn [negb]; [|reflexivity].
  unfold mbind at 1, U32.parser_bind at 1, U32.NEXT_ARG at 1.
  cbn [U32.argv U32.argc].
  unfold mbind at 1, U32.parser_bind at 1. rewrite u32_parse_ethproto_frame.
  destruct (family_of_token fam) as [ethtype|e]; [|reflexivity].
  rewrite E2.
  destruct rest as [|t2 rest]; [simpl in Hl'; lia|].
  unfold mbind at 1, U32.parser_bind at 1, U32.cur at 1.
  cbn [U32.argv U32.argc].
  unfold mbind at 1, U32.parser_bind at 1. unfold skip_flower.
  destruct (t2 =? "flower").
  - unfold U32.NEXT_ARG at 1. cbn [U32.argv U32.argc].
    replace ((Z.of_nat (length (t2 :: rest)) mod U32.UINT_MOD - 1)
             mod U32.UINT_MOD)%Z
      with (Z.of_nat (length rest) mod U32.UINT_MOD)%Z
      by (rewrite Zminus_mod_idemp_l; f_equal; simpl length; lia).
    exact (u32_rule_body_sim ethtype _ (counted_tokens_in_range rest)).
  - unfold mret at 1, U32.parser_ret at 1.
    exact (u32_rule_body_sim ethtype _ (counted_tokens_in_range (t2 :: rest))).
Qed.

(** On an array of fewer than 2^32 tokens the 32-bit counter is the number of
    tokens left, and the two embeddings of [tcflower_parse_rule] agree. *)
Lemma u32_parse_rule_agree user_rule :
  (Z.of_nat (length user_rule) < U32.UINT_MOD)%Z ->
  U32.tcflower_parse_rule user_rule = tcflower_parse_rule user_rule.
Proof.
  intros Hfit. destruct user_rule as [|t0 [|fam rest]]; [reflexivity..|].
  rewrite u32_parse_rule_unfold, parse_rule_unfold.
  rewrite counted_tokens_small; [reflexivity|].
  pose proof (skip_flower_length rest). simpl length in Hfit. lia.
Qed.

(** Every run of the part from the loop on that returns a rule: clauses, then
    the action clause and nothing more. *)
Lemma parse_rule_body_ok_inv ethtype c rule :
  tcflower_parse_rule_body ethtype c = Ok rule ->
  exists cl ms act,
    c = clause_tokens cl ++ ["action"; act] /\
    Forall2 (clause_parses ethtype) cl ms /\
    length cl <= KEFIR_MAX_MATCH_PER_RULE /\
    tcflower_check_matchlist (slots ms) = Ok tt /\
    action_of_token act = Ok (action rule) /\
    matches rule = slots ms /\
    calloc_null = false.
Proof.
  unfold tcflower_parse_rule_body. rewrite <- slots_nil.
  change 0 with (length (@nil kefir_match)).
  destruct (tcflower_parse_rule_loop _ _ _ c) as [[[ms' i'] c']|e] eqn:Hloop;
    [|discriminate].
  eapply parse_rule_loop_ok_inv in Hloop; [|reflexivity|simpl; lia].
  destruct Hloop as (cl & ms & -> & Hms & -> & Hcap & -> & Hne & Hex).
  simpl in *.
  destruct (tcflower_check_matchlist (slots ms)) as [[]|e0] eqn:Hchk;
    [|discriminate].
  destruct (tcflower_parse_action c') as [[code c2]|e1] eqn:Hact;
    [|discriminate].
  apply parse_action_ok_inv in Hact as (act & -> & Hact).
  unfold tcflower_compose_rule.
  destruct calloc_null; [discriminate|]. intros [= <-]. simpl.
  exists cl, ms, act. repeat split; try assumption.
  apply take_ge. rewrite slots_length; [lia|].
  apply Forall2_length in Hms. lia.
Qed.

Lemma u32_parse_rule_short user_rule :
  length user_rule < 6 ->
  U32.tcflower_parse_rule user_rule = Err (BadArgumentCount rule_args).
Proof.
  intros H. unfold U32.tcflower_parse_rule. cbv zeta.
  destruct (Z.ltb_spec (Z.of_nat (length user_rule)) 6); [reflexivity|lia].
Qed.

(** Every token array that [tcflower_parse_rule] accepts with the 32-bit
    counter: the grammar's shape, possibly without clauses, on the tokens that
    the counter accounts for, and tokens that it does not account for. *)
Lemma u32_parse_rule_ok_inv user_rule rule :
  U32.tcflower_parse_rule user_rule = Ok rule ->
  exists fam ethtype flower cl ms act junk,
    user_rule = rule_tokens fam flower cl ("action" :: act :: junk) /\
    family_of_token fam = Ok ethtype /\
    Forall2 (clause_parses ethtype) cl ms /\
    length cl <= KEFIR_MAX_MATCH_PER_RULE /\
    (Z.of_nat (length user_rule) mod U32.UINT_MOD =
       4 + (if flower then 1 else 0) + 2 * Z.of_nat (length cl))%Z /\
    bool_decide (user_rule !! 2 = Some "flower") = flower /\
    6 <= length user_rule /\
    tcflower_check_matchlist (slots ms) = Ok tt /\
    action_of_token act = Ok (action rule) /\
    matches rule = slots ms /\
    calloc_null = false.
Proof.
  assert (HM : U32.UINT_MOD = (2 ^ 32)%Z) by reflexivity.
  destruct (Nat.lt_ge_cases (length user_rule) 6) as [Hs|Hlen].
  { rewrite u32_parse_rule_short by exact Hs. discriminate. }
  destruct user_rule as [|t0 [|fam rest]]; simpl in Hlen; try lia.
  rewrite u32_parse_rule_unfold.
  destruct (Nat.ltb_spec (length rest) 4) as [?|_]; [lia|].
  destruct (t0 =? "protocol") eqn:E0; [|discriminate].
  apply String.eqb_eq in E0 as ->. cbn [negb].
  destruct (family_of_token fam) as [ethtype|e] eqn:Hfam; [|discriminate].
  intros H. apply parse_rule_body_ok_inv in H.
  destruct H as (cl & ms & act & Hc & Hms & Hcap & Hchk & Hact & Hm & Hnull).
  assert (Hcount :
    (Z.of_nat (length (skip_flower rest)) mod U32.UINT_MOD =
     2 * Z.of_nat (length cl) + 2)%Z).
  { pose proof (counted_length _ (counted_tokens_in_range (skip_flower rest)))
      as Hl.
    unfold counted in Hl. simpl in Hl. fold (counted_tokens (skip_flower rest)) in Hl.
    rewrite Hc, length_app, clause_tokens_length in Hl. simpl in Hl.
    pose proof (Z.mod_pos_bound (Z.of_nat (length (skip_flower rest)))
                  U32.UINT_MOD ltac:(lia)).
    lia. }
  pose proof (take_drop
    (Z.to_nat (Z.of_nat (length (skip_flower rest)) mod U32.UINT_MOD))
    (skip_flower rest)) as Hsplit.
  fold (counted_tokens (skip_flower rest)) in Hsplit.
  rewrite Hc, <- app_assoc in Hsplit. simpl in Hsplit.
  set (junk := drop _ _) in Hsplit. clearbody junk.
  unfold KEFIR_MAX_MATCH_PER_RULE in Hcap.
  destruct rest as [|t2 rest]; [simpl in Hlen; lia|].
  unfold skip_flower in Hsplit, Hcount.
  destruct (t2 =? "flower") eqn:E2.
  - apply String.eqb_eq in E2 as ->.
    exists fam, ethtype, true, cl, ms, act, junk.
    split; [unfold rule_tokens; simpl; rewrite Hsplit; reflexivity|].
    repeat split; try assumption; try (simpl; lia).
    replace (Z.of_nat (length ("protocol" :: fam :: "flower" :: rest)))
      with (3 + Z.of_nat (length rest))%Z by (simpl length; lia).
    rewrite <- Zplus_mod_idemp_r, Hcount, Z.mod_small by lia. lia.
  - exists fam, ethtype, false, cl, ms, act, junk.
    split; [unfold rule_tokens; simpl; rewrite Hsplit; reflexivity|].
    repeat split; try assumption; try (simpl; lia).
    + replace (Z.of_nat (length ("protocol" :: fam :: t2 :: rest)))
        with (2 + Z.of_nat (length (t2 :: rest)))%Z by (simpl length; lia).
      rewrite <- Zplus_mod_idemp_r, Hcount, Z.mod_small by lia. lia.
    + apply bool_decide_eq_false. simpl. intros [= ->]. discriminate.
Qed.

(** ** The masks of the clauses *)

Lemma clause_mask_keyword ethtype match0 kw tok m :
  tcflower_clause ethtype match0 kw tok = Ok m ->
  mask_parsed (match_type m) = mask_keyword kw.
Proof.
  unfold tcflower_clause, run, tcflower_parse_match, tcflower_parse_ipproto.
  parser_unfold. simpl.
  repeat split_once; simpl; intros H; try discriminate H;
    injection H as <-; simpl; eqb_facts; reflexivity.
Qed.

Lemma clauses_masks ethtype cl ms :
  Forall2 (clause_parses ethtype) cl ms ->
  Forall2 clause_mask cl ms /\
  (codec_default_ones codec -> Forall2 clause_mask_default cl ms).
Proof.
  induction 1 as [|[kw tok] m cl ms Hm _ [IH1 IH2]].
  - split; constructor.
  - unfold clause_parses in Hm. simpl in Hm.
    pose proof (clause_mask_keyword _ _ _ _ _ Hm) as Hkw.
    apply clause_ok_inv in Hm as (_ & _ & _ & _ & Hmask & _).
    rewrite Hkw in Hmask. change (mask zero_match) with (zero_bytes 16) in Hmask.
    split.
    + constructor; [exact Hmask|exact IH1].
    + intros Hdef. constructor; [|exact (IH2 Hdef)].
      intros Hk Hno. simpl in Hk, Hno. rewrite Hk in Hmask.
      exact (Hdef _ _ _ Hno Hmask).
Qed.

(** The rule parser on an array that holds no clause among the tokens it
    counts. *)
Lemma u32_rule_without_clauses fam ethtype act code junk :
  family_of_token fam = Ok ethtype ->
  action_of_token act = Ok code ->
  calloc_null = false ->
  2 <= length junk ->
  (Z.of_nat (length junk) mod U32.UINT_MOD = 0)%Z ->
  U32.tcflower_parse_rule ("protocol" :: fam :: "action" :: act :: junk) =
  Ok {| matches := replicate KEFIR_MAX_MATCH_PER_RULE zero_match;
        action := code |}.
Proof.
  intros Hfam Hact Hnull Hlen Hmod.
  rewrite u32_parse_rule_unfold, Hfam.
  destruct (Nat.ltb_spec (length ("action" :: act :: junk)) 4) as [Hs|_];
    [simpl length in Hs; lia|].
  change (negb ("protocol" =? "protocol")) with false. cbv iota.
  change (skip_flower ("action" :: act :: junk)) with ("action" :: act :: junk).
  assert (Hc : counted_tokens ("action" :: act :: junk) = ["action"; act]).
  { unfold counted_tokens.
    replace (Z.of_nat (length ("action" :: act :: junk)))
      with (2 + Z.of_nat (length junk))%Z by (simpl length; lia).
    rewrite <- Zplus_mod_idemp_r, Hmod.
    change (Z.to_nat ((2 + 0) mod U32.UINT_MOD)) with 2. reflexivity. }
  rewrite Hc. unfold tcflower_parse_rule_body.
  rewrite parse_rule_loop_unfold, decide_False by (simpl; lia).
  change (tcflower_check_matchlist
            (replicate KEFIR_MAX_MATCH_PER_RULE zero_match)) with (Ok tt).
  cbv iota. rewrite parse_action_tokens, Hact.
  unfold tcflower_compose_rule. rewrite Hnull. reflexivity.
Qed.

End Counter.

(** ** The spec's codec *)

Lemma split_on_no_slash s :
  has_mask_part s = false -> Codec.split_on "/" s = [s].
Proof.
  unfold has_mask_part. induction s as [|a s IH]; [reflexivity|].
  cbn [list_ascii_of_string existsb Codec.split_on]. intros H.
  apply orb_false_iff in H as [Ha Hs].
  rewrite Ascii.eqb_sym, Ha, (IH Hs). reflexivity.
Qed.

Lemma kefir_codec_default_ones : codec_default_ones kefir_codec.
Proof.
  intros t tok k Hno. unfold codec_mask.
  destruct t; try discriminate;
    cbn [parse_eth_addr_slash_mask parse_uint_slash_mask
         parse_ipv4_addr_slash_mask parse_ipv6_addr_slash_mask kefir_codec];
    unfold Codec.addr_slash_mask, Codec.uint_slash_mask;
    rewrite (split_on_no_slash tok Hno);
    match goal with
    | |- context [mbind _ ?o] => destruct o
    end; simpl; intros [= <-]; reflexivity.
Qed.

(** * The rule parser on arrays of any size *)

Section CountedRules.
Context {codec : value_codec} {libc : allocator}.

(** C8 (amended).  In a rule returned by [tcflower_parse_rule] the matches
    are those of the clauses of the token array that the counter accounts
    for, one slot per clause in the order of the clauses, and the slots behind
    them are zero.  The 16-byte
    mask of the match of a clause with a mask keyword ([dst_mac], [src_mac],
    [ip_tos], [ip_ttl], [dst_ip], [src_ip]) is the buffer that the
    [_slash_mask] codec function filled, from the zeroed buffer, for the value
    token of that very clause: all ones (exact match) when the token has no
    [/] part and the codec keeps to its contract, the mask read from the
    literal otherwise.  The mask of the match of any other clause, such as
    [vlan_id], [vlan_prio], [dst_port] or [src_port], is all zero, as the slot
    was initialised. *)
Theorem parsed_rule_clause_masks user_rule rule :
  U32.tcflower_parse_rule user_rule = Ok rule ->
  exists fam flower cl act junk,
    user_rule = rule_tokens fam flower cl ("action" :: act :: junk) /\
    (Z.of_nat (length user_rule) mod U32.UINT_MOD =
       4 + (if flower then 1 else 0) + 2 * Z.of_nat (length cl))%Z /\
    matches rule =
      match_list (matches rule) ++
      replicate (KEFIR_MAX_MATCH_PER_RULE - length cl) zero_match /\
    Forall2 clause_mask cl (match_list (matches rule)) /\
    (codec_default_ones codec ->
     Forall2 clause_mask_default cl (match_list (matches rule))).
Proof.
  intros H. apply u32_parse_rule_ok_inv in H.
  destruct H as (fam & ethtype & flower & cl & ms & act & junk & -> & _ & Hms
                 & Hcap & Hcount & _ & _ & _ & _ & Hrule & _).
  pose proof (Forall2_length _ _ _ Hms) as Hlen.
  rewrite Hrule, (match_list_slots ethtype cl ms Hms Hcap).
  exists fam, flower, cl, act, junk.
  split; [reflexivity|]. split; [exact Hcount|].
  split; [unfold slots; rewrite Hlen; reflexivity|].
  apply (clauses_masks ethtype cl ms Hms).
Qed.

(** X20.  Whatever the size of the array, a rule returned by
    [tcflower_parse_rule] has 5 slots and a match list of at most 5 entries,
    which are the matches of the clauses that the counter accounts for, in the
    order of the clauses, the slots behind them being zero; its action is the
    code of the action token that follows these clauses.  When the array has
    fewer than 2^32 tokens, nothing follows the action code and there is a
    clause at least: the rule has between 1 and 5 matches. *)
Theorem counted_rule_matches user_rule rule :
  U32.tcflower_parse_rule user_rule = Ok rule ->
  length (matches rule) = KEFIR_MAX_MATCH_PER_RULE /\
  length (match_list (matches rule)) <= KEFIR_MAX_MATCH_PER_RULE /\
  exists fam ethtype flower cl act junk,
    user_rule = rule_tokens fam flower cl ("action" :: act :: junk) /\
    family_of_token fam = Ok ethtype /\
    action_of_token act = Ok (action rule) /\
    Forall2 (clause_parses ethtype) cl (match_list (matches rule)) /\
    matches rule =
      match_list (matches rule) ++
      replicate (KEFIR_MAX_MATCH_PER_RULE - length cl) zero_match /\
    ((Z.of_nat (length user_rule) < U32.UINT_MOD)%Z ->
     junk = [] /\ 1 <= length (match_list (matches rule))).
Proof.
  intros H. apply u32_parse_rule_ok_inv in H.
  destruct H as (fam & ethtype & flower & cl & ms & act & junk & -> & Hfam
                 & Hms & Hcap & Hcount & _ & Hsix & _ & Hact & Hrule & _).
  pose proof (Forall2_length _ _ _ Hms) as Hlen.
  rewrite Hrule, (match_list_slots ethtype cl ms Hms Hcap).
  split; [apply slots_length; lia|]. split; [lia|].
  exists fam, ethtype, flower, cl, act, junk.
  repeat split; try assumption.
  - unfold slots. rewrite Hlen. reflexivity.
  - rewrite Z.mod_small in Hcount by lia.
    rewrite rule_tokens_length in Hcount. simpl length in Hcount.
    destruct junk; [reflexivity|]. simpl length in Hcount.
    destruct flower; lia.
  - rewrite Z.mod_small in Hcount by lia.
    rewrite rule_tokens_length in Hsix, Hcount. simpl length in *.
    destruct flower; lia.
Qed.

(** X15.  An array that [tcflower_parse_rule] accepts has 6 tokens or more,
    and its size modulo 2^32, which is what the counter holds, is 4, one more
    when the third token is [flower], and 2 for each match of the rule
    returned, of which there are 5 at most.  An array of fewer than 2^32
    tokens that is accepted has therefore between 6 and 15 tokens. *)
Theorem accepted_rule_token_count user_rule rule :
  U32.tcflower_parse_rule user_rule = Ok rule ->
  (Z.of_nat (length user_rule) mod U32.UINT_MOD =
     4 + (if bool_decide (user_rule !! 2%nat = Some "flower") then 1 else 0) +
     2 * Z.of_nat (length (match_list (matches rule))))%Z /\
  6 <= length user_rule /\
  length (match_list (matches rule)) <= KEFIR_MAX_MATCH_PER_RULE /\
  ((Z.of_nat (length user_rule) < U32.UINT_MOD)%Z -> length user_rule <= 15).
Proof.
  intros H. apply u32_parse_rule_ok_inv in H.
  destruct H as (fam & ethtype & flower & cl & ms & act & junk & E & _ & Hms
                 & Hcap & Hcount & Hfl & Hsix & _ & _ & Hrule & _).
  pose proof (Forall2_length _ _ _ Hms) as Hlen.
  rewrite Hrule, (match_list_slots ethtype cl ms Hms Hcap), Hfl, <- Hlen.
  repeat split; try assumption.
  intros Hfit. rewrite Z.mod_small in Hcount by lia.
  unfold KEFIR_MAX_MATCH_PER_RULE in Hcap. destruct flower; lia.
Qed.

(** A second [flower] that the counter does not reach. *)
Lemma second_flower_uncounted fam ethtype rest :
  family_of_token fam = Ok ethtype ->
  2 <= length rest ->
  (Z.of_nat (length ("flower" :: rest)) mod U32.UINT_MOD < 2)%Z ->
  U32.tcflower_parse_rule
    ("protocol" :: fam :: "flower" :: "flower" :: rest) =
  Err (BadArgumentCount action_args).
Proof.
  assert (HM : (0 < U32.UINT_MOD)%Z) by (unfold U32.UINT_MOD; lia).
  intros Hfam Hlen Hcnt.
    pose proof (Z.mod_pos_bound (Z.of_nat (length ("flower" :: rest))) _ HM)
    as Hpos.
  rewrite u32_parse_rule_unfold, Hfam.
  destruct (Nat.ltb_spec (length ("flower" :: "flower" :: rest)) 4) as [Hs|_];
    [simpl length in *; lia|].
  change (negb ("protocol" =? "protocol")) with false. cbv iota.
  change (skip_flower ("flower" :: "flower" :: rest))
    with ("flower" :: rest).
  unfold counted_tokens.
  remember (Z.to_nat (Z.of_nat (length ("flower" :: rest))
                      mod U32.UINT_MOD)) as k eqn:Hk.
  assert (Hk2 : k < 2) by lia.
  clear Hk Hcnt Hpos.
  unfold tcflower_parse_rule_body.
  rewrite parse_rule_loop_unfold.
  rewrite decide_False by (rewrite length_take; lia).
  change (tcflower_check_matchlist
            (replicate KEFIR_MAX_MATCH_PER_RULE zero_match)) with (Ok tt).
  cbv iota. rewrite parse_action_count; [reflexivity|].
  rewrite length_take. lia.
Qed.

(** Tokens in a multiple of 2^32 behind an array that fits the counter are
    not counted. *)
Lemma u32_parse_rule_append t0 fam rest junk :
  4 <= length rest ->
  (Z.of_nat (length rest) < U32.UINT_MOD)%Z ->
  (Z.of_nat (length junk) mod U32.UINT_MOD = 0)%Z ->
  U32.tcflower_parse_rule (t0 :: fam :: rest ++ junk) =
  U32.tcflower_parse_rule (t0 :: fam :: rest).
Proof.
  intros Hlen Hfit Hmod. rewrite !u32_parse_rule_unfold.
  destruct (Nat.ltb_spec (length (rest ++ junk)) 4) as [Hs|_];
    [rewrite length_app in Hs; lia|].
  destruct (Nat.ltb_spec (length rest) 4) as [?|_]; [lia|].
  destruct (negb (t0 =? "protocol")); [reflexivity|].
  destruct (family_of_token fam) as [ethtype|e]; [|reflexivity].
  assert (Hskip : skip_flower (rest ++ junk) = skip_flower rest ++ junk).
  { destruct rest as [|t2 rest]; [simpl in Hlen; lia|]. simpl.
    destruct (t2 =? "flower"); reflexivity. }
  pose proof (skip_flower_length rest) as Hsl.
  rewrite Hskip, (counted_tokens_small (skip_flower rest)) by lia.
  unfold counted_tokens. rewrite length_app, Nat2Z.inj_add.
  rewrite <- Zplus_mod_idemp_r, Hmod, Z.add_0_r, Z.mod_small by lia.
  rewrite Nat2Z.id, take_app_length. reflexivity.
Qed.

(** X23.  On an array of fewer than 2^32 tokens the truncation of
    [rule_size] to the 32-bit [argc] loses nothing: the counter is the number
    of tokens left throughout, and [tcflower_parse_rule] with the 32-bit
    counter has the outcome of the parser whose counter is that number. *)
Theorem bounded_arrays_agree user_rule :
  (Z.of_nat (length user_rule) < U32.UINT_MOD)%Z ->
  U32.tcflower_parse_rule user_rule = tcflower_parse_rule user_rule.
Proof. apply u32_parse_rule_agree. Qed.

(** X4.  The [flower] keyword after the family token is skipped without
    effect: when at least 4 tokens follow it, the first of them not being
    [flower], the outcome is that of the array without the keyword.  It is
    skipped once only: a second [flower] is taken for a match keyword and
    rejected, provided that the counter still counts 3 tokens or more from
    that second [flower] on, as it does in an array of fewer than 2^32
    tokens. *)
Theorem flower_keyword_skipped :
  (forall t0 fam rest,
     4 <= length rest ->
     head rest <> Some "flower" ->
     U32.tcflower_parse_rule (t0 :: fam :: "flower" :: rest) =
     U32.tcflower_parse_rule (t0 :: fam :: rest)) /\
  (forall fam ethtype rest,
     family_of_token fam = Ok ethtype ->
     (2 < Z.of_nat (length ("flower" :: rest)) mod U32.UINT_MOD)%Z ->
     U32.tcflower_parse_rule
       ("protocol" :: fam :: "flower" :: "flower" :: rest) =
     Err (UnsupportedMatchKeyword "flower")).
Proof.
  assert (HM : (0 < U32.UINT_MOD)%Z) by (unfold U32.UINT_MOD; lia).
  split.
  - intros t0 fam rest Hlen Hhd. rewrite !u32_parse_rule_unfold. simpl length.
    destruct (Nat.ltb_spec (S (length rest)) 4) as [?|_]; [lia|].
    destruct (Nat.ltb_spec (length rest) 4) as [?|_]; [lia|].
    destruct rest as [|t2 rest]; [reflexivity|].
    change (skip_flower ("flower" :: t2 :: rest)) with (t2 :: rest).
    unfold skip_flower.
    destruct (t2 =? "flower") eqn:E; [|reflexivity].
    apply String.eqb_eq in E as ->. contradiction.
  - intros fam ethtype rest Hfam Hcnt.
    pose proof (Z.mod_le (Z.of_nat (length ("flower" :: rest))) _
                  ltac:(lia) HM) as Hle.
    rewrite u32_parse_rule_unfold, Hfam.
    destruct (Nat.ltb_spec (length ("flower" :: "flower" :: rest)) 4) as [Hs|_];
      [simpl length in *; lia|].
    change (negb ("protocol" =? "protocol")) with false. cbv iota.
    change (skip_flower ("flower" :: "flower" :: rest))
      with ("flower" :: rest).
    unfold counted_tokens.
    remember (Z.to_nat (Z.of_nat (length ("flower" :: rest))
                        mod U32.UINT_MOD)) as k eqn:Hk.
    assert (Hk3 : 3 <= k <= length ("flower" :: rest)) by lia.
    clear Hk Hcnt Hle.
    destruct k as [|[|[|k]]]; try lia.
    destruct rest as [|x [|y rest]]; simpl in Hk3; try lia.
    simpl take. unfold tcflower_parse_rule_body.
    rewrite parse_rule_loop_unfold.
    rewrite decide_True by (simpl; unfold KEFIR_MAX_MATCH_PER_RULE; lia).
    rewrite parse_match_frame. reflexivity.
Qed.

(** X6.  The error of the first clause that fails is the error of the rule:
    in an array of fewer than 2^32 tokens, after a supported family token,
    the optional [flower] and fewer than 5 clauses that parse, a clause that
    [tcflower_parse_match] rejects with error [e], followed by at least one
    token, makes [tcflower_parse_rule] fail with [e], whatever comes after and
    whether or not the clauses before it would pass the match-list check. *)
Theorem first_failing_clause fam ethtype flower cl ms kw tok rest e :
  family_of_token fam = Ok ethtype ->
  Forall2 (clause_parses ethtype) cl ms ->
  length cl < KEFIR_MAX_MATCH_PER_RULE ->
  tcflower_clause ethtype zero_match kw tok = Err e ->
  rest <> [] ->
  (flower = false -> cl = [] -> kw <> "flower") ->
  6 <= length (rule_tokens fam flower cl (kw :: tok :: rest)) ->
  (Z.of_nat (length (rule_tokens fam flower cl (kw :: tok :: rest)))
   < U32.UINT_MOD)%Z ->
  U32.tcflower_parse_rule (rule_tokens fam flower cl (kw :: tok :: rest))
  = Err e.
Proof.
  intros Hfam Hms Hcap He Hne Hfl Hlen Hfit.
  rewrite u32_parse_rule_agree by exact Hfit.
  apply (parse_rule_clause_err fam ethtype flower cl ms); assumption.
Qed.

(** X7.  In an array of fewer than 2^32 tokens, tokens after the action code
    do not give a count error while fewer than 5 matches are collected: the
    loop goes on, takes [action] for a match keyword and the rule fails with
    UnsupportedMatchKeyword carrying [action].  The same happens to such an
    array of 6 tokens or more with no match clause at all. *)
Theorem tokens_after_action fam ethtype flower cl ms act x rest :
  family_of_token fam = Ok ethtype ->
  Forall2 (clause_parses ethtype) cl ms ->
  length cl < KEFIR_MAX_MATCH_PER_RULE ->
  6 <= length (rule_tokens fam flower cl ("action" :: act :: x :: rest)) ->
  (Z.of_nat (length (rule_tokens fam flower cl ("action" :: act :: x :: rest)))
   < U32.UINT_MOD)%Z ->
  U32.tcflower_parse_rule
    (rule_tokens fam flower cl ("action" :: act :: x :: rest))
  = Err (UnsupportedMatchKeyword "action").
Proof.
  intros Hfam Hms Hcap Hlen Hfit.
  rewrite u32_parse_rule_agree by exact Hfit.
  apply (parse_rule_clause_err fam ethtype flower cl ms); try assumption.
  - reflexivity.
  - discriminate.
  - intros _ _. discriminate.
Qed.

(** X24.  Whatever the size of the array, a rule returned by
    [tcflower_parse_rule] keeps the invariants of the rule: a port match in
    its match list comes with an L4-protocol match; every slot holds a kind of
    the family that the second token selects, or of no family; and every slot
    has no flag set, an all-zero [max_value] and the equal operator. *)
Theorem returned_rule_invariants user_rule rule :
  U32.tcflower_parse_rule user_rule = Ok rule ->
  (forall m, m ∈ match_list (matches rule) ->
     is_l4port (match_type m) = true ->
     exists m', m' ∈ match_list (matches rule) /\
                is_l4proto (match_type m') = true) /\
  (exists fam ethtype,
     user_rule !! 1 = Some fam /\ family_of_token fam = Ok ethtype /\
     forall m, m ∈ matches rule ->
       kind_family (match_type m) = None \/
       kind_family (match_type m) = Some ethtype) /\
  (forall m, m ∈ matches rule ->
     flags m = 0%Z /\ max_value m = zero_bytes 16 /\
     comp_operator m = OPER_EQUAL).
Proof.
  intros H. apply u32_parse_rule_ok_inv in H.
  destruct H as (fam & ethtype & flower & cl & ms & act & junk & -> & Hfam
                 & Hms & Hcap & _ & _ & _ & Hchk & _ & Hrule & _).
  assert (Hslot : forall m, m ∈ matches rule ->
            m = zero_match \/
            exists kv, tcflower_clause ethtype zero_match kv.1 kv.2 = Ok m).
  { intros m Hin. rewrite Hrule in Hin. unfold slots in Hin.
    apply elem_of_app in Hin as [Hin|Hin].
    - right. destruct (Forall2_elem_of_r _ _ _ _ Hms Hin) as (kv & _ & HP).
      exists kv. exact HP.
    - left. apply elem_of_replicate in Hin. tauto. }
  split; [|split].
  - rewrite Hrule. intros m Hin Hport.
    rewrite check_matchlist_spec in Hchk.
    assert (existsb (fun m => is_l4port (match_type m))
              (match_list (slots ms)) = true) as Hp.
    { apply existsb_exists. exists m. split; [|exact Hport].
      apply list_elem_of_In. exact Hin. }
    rewrite Hp in Hchk. simpl in Hchk.
    destruct (existsb (fun m => is_l4proto (match_type m))
                (match_list (slots ms))) eqn:Hq; [|discriminate].
    apply existsb_exists in Hq as (m' & Hin' & Hproto).
    exists m'. split; [apply list_elem_of_In; exact Hin'|exact Hproto].
  - exists fam, ethtype. split; [reflexivity|]. split; [exact Hfam|].
    apply family_of_token_ok in Hfam.
    assert (Hsel : (if decide (ethtype = TCFLOWER_ETH_PROTO_IPV6)
                    then TCFLOWER_ETH_PROTO_IPV6 else TCFLOWER_ETH_PROTO_IPV4)
                   = ethtype).
    { destruct Hfam as [[_ ->]|[_ ->]]; reflexivity. }
    intros m Hin. destruct (Hslot m Hin) as [->|(kv & Hm)];
      [left; reflexivity|].
    apply clause_ok_inv in Hm. rewrite Hsel in Hm. tauto.
  - intros m Hin. destruct (Hslot m Hin) as [->|(kv & Hm)]; [auto|].
    apply clause_ok_inv in Hm. simpl in Hm. tauto.
Qed.

End CountedRules.

(** ** Arrays of 2^32 tokens and more *)

Lemma oversized_tail_length :
  Z.of_nat (length oversized_tail) = (2 ^ 32)%Z.
Proof.
  unfold oversized_tail. rewrite length_replicate. apply Z2Nat.id. lia.
Qed.

Lemma oversized_rule_parse junk :
  Z.of_nat (length junk) = (2 ^ 32)%Z ->
  Z.of_nat (length ("protocol" :: "ip" :: "action" :: "drop" :: junk)) =
    (2 ^ 32 + 4)%Z /\
  @U32.tcflower_parse_rule kefir_codec calloc_some
    ("protocol" :: "ip" :: "action" :: "drop" :: junk) =
    Ok {| matches := replicate KEFIR_MAX_MATCH_PER_RULE zero_match;
          action := ACTION_CODE_DROP |}.
Proof.
  intros Hlen. split.
  - change (length ("protocol" :: "ip" :: "action" :: "drop" :: junk))
      with (S (S (S (S (length junk))))). lia.
  - apply (@u32_rule_without_clauses kefir_codec calloc_some "ip"
             TCFLOWER_ETH_PROTO_IPV4 "drop").
    + reflexivity.
    + reflexivity.
    + reflexivity.
    + lia.
    + rewrite Hlen. reflexivity.
Qed.

Lemma oversized_flower_parse junk :
  Z.of_nat (length junk) = (2 ^ 32)%Z ->
  @U32.tcflower_parse_rule kefir_codec calloc_some
    ("protocol" :: "ip" :: "flower" :: "flower" :: junk) =
  Err (BadArgumentCount action_args).
Proof.
  intros Hlen.
  apply (@second_flower_uncounted kefir_codec calloc_some "ip"
           TCFLOWER_ETH_PROTO_IPV4).
  - reflexivity.
  - lia.
  - change (length ("flower" :: junk)) with (S (length junk)).
    rewrite Nat2Z.inj_succ, Hlen. reflexivity.
Qed.

Lemma oversized_vlan_parse junk :
  Z.of_nat (length junk) = (2 ^ 32)%Z ->
  @U32.tcflower_parse_rule kefir_codec calloc_some
    ("protocol" :: "ip" :: "vlan_id" :: "5" :: "action" :: "drop" :: junk) =
  Ok {| matches := slots [u16_match KEFIR_MATCH_TYPE_VLAN_ID 5];
        action := ACTION_CODE_DROP |}.
Proof.
  intros Hlen.
  transitivity (@U32.tcflower_parse_rule kefir_codec calloc_some
                  ["protocol"; "ip"; "vlan_id"; "5"; "action"; "drop"]);
    [|reflexivity].
  apply (@u32_parse_rule_append kefir_codec calloc_some "protocol" "ip"
           ["vlan_id"; "5"; "action"; "drop"] junk).
  - simpl. lia.
  - reflexivity.
  - rewrite Hlen. reflexivity.
Qed.

(** C4 (fails on the code).  [tcflower_parse_rule] given the 2^32 + 4 tokens
    [protocol ip action drop x x ...] assigns 4 to its counter, does not
    enter the loop, and returns a rule whose match list is empty, where the
    claim has one match at least. *)
Theorem oversized_rule_without_matches :
  (Z.of_nat (length oversized_rule) = (2 ^ 32 + 4)%Z /\
   parse_with_room_u32 oversized_rule =
     Ok {| matches := replicate KEFIR_MAX_MATCH_PER_RULE zero_match;
           action := ACTION_CODE_DROP |}) /\
  match_list (replicate KEFIR_MAX_MATCH_PER_RULE zero_match) = [].
Proof.
  split; [exact (oversized_rule_parse _ oversized_tail_length)|reflexivity].
Qed.

(** X21.  In the array [protocol ip flower flower] followed by 2^32 tokens
    the counter holds 1 once the first [flower] is skipped: the second
    [flower] is not taken for a match keyword, the loop is not entered and the
    action clause finds a wrong count.  In the 6 tokens
    [protocol ip flower flower action drop] the second [flower] is rejected as
    a match keyword. *)
Theorem oversized_second_flower :
  parse_with_room_u32
    ("protocol" :: "ip" :: "flower" :: "flower" :: oversized_tail) =
  Err (BadArgumentCount action_args) /\
  parse_with_room_u32
    ["protocol"; "ip"; "flower"; "flower"; "action"; "drop"] =
  Err (UnsupportedMatchKeyword "flower").
Proof.
  split; [exact (oversized_flower_parse _ oversized_tail_length)|reflexivity].
Qed.

(** X22.  Tokens that the counter does not account for are never looked at:
    the array [protocol ip vlan_id 5 action drop] followed by 2^32 tokens is
    accepted, with the rule of its first 6 tokens, while the same 6 tokens
    followed by 2 tokens are rejected, [action] being taken for a match
    keyword. *)
Theorem oversized_tail_ignored :
  parse_with_room_u32
    ("protocol" :: "ip" :: "vlan_id" :: "5" :: "action" :: "drop" ::
     oversized_tail) =
  Ok {| matches := slots [u16_match KEFIR_MATCH_TYPE_VLAN_ID 5];
        action := ACTION_CODE_DROP |} /\
  parse_with_room_u32
    ["protocol"; "ip"; "vlan_id"; "5"; "action"; "drop"] =
  Ok {| matches := slots [u16_match KEFIR_MATCH_TYPE_VLAN_ID 5];
        action := ACTION_CODE_DROP |} /\
  parse_with_room_u32
    ["protocol"; "ip"; "vlan_id"; "5"; "action"; "drop"; "bogus"; "7"] =
  Err (UnsupportedMatchKeyword "action").
Proof.
  split; [exact (oversized_vlan_parse _ oversized_tail_length)|].
  split; reflexivity.
Qed.

(** ** Instances *)

Example mask_of_each_clause :
  exists rule,
    parse_with_room_u32
      ["protocol"; "ip"; "dst_ip"; "10.0.0.1/8"; "src_ip"; "10.0.0.2";
       "vlan_id"; "5"; "action"; "drop"] = Ok rule /\
    map match_type (match_list (matches rule)) =
      [KEFIR_MATCH_TYPE_IP_4_DST; KEFIR_MATCH_TYPE_IP_4_SRC;
       KEFIR_MATCH_TYPE_VLAN_ID] /\
    map mask (match_list (matches rule)) =
      [255%Z :: replicate 15 0%Z; replicate 16 255%Z; replicate 16 0%Z].
Proof. eexists. repeat split; reflexivity. Qed.

Lemma parsed_rule_clause_masks_witness :
  codec_default_ones kefir_codec /\
  exists rule,
    parse_with_room_u32
      ["protocol"; "ip"; "dst_ip"; "10.0.0.1/8"; "src_ip"; "10.0.0.2";
       "vlan_id"; "5"; "action"; "drop"] = Ok rule /\
    exists fam flower cl act junk,
      ["protocol"; "ip"; "dst_ip"; "10.0.0.1/8"; "src_ip"; "10.0.0.2";
       "vlan_id"; "5"; "action"; "drop"] =
        rule_tokens fam flower cl ("action" :: act :: junk) /\
      (Z.of_nat 10 mod U32.UINT_MOD =
         4 + (if flower then 1 else 0) + 2 * Z.of_nat (length cl))%Z /\
      matches rule =
        match_list (matches rule) ++
        replicate (KEFIR_MAX_MATCH_PER_RULE - length cl) zero_match /\
      Forall2 clause_mask cl (match_list (matches rule)) /\
      (codec_default_ones kefir_codec ->
       Forall2 clause_mask_default cl (match_list (matches rule))).
Proof.
  split; [exact kefir_codec_default_ones|].
  eexists. split; [reflexivity|].
  apply (@parsed_rule_clause_masks kefir_codec calloc_some
    ["protocol"; "ip"; "dst_ip"; "10.0.0.1/8"; "src_ip"; "10.0.0.2";
     "vlan_id"; "5"; "action"; "drop"]).
  reflexivity.
Defined.

Lemma counted_rule_matches_witness :
  exists rule,
    parse_with_room_u32
      ["protocol"; "ip"; "ip_proto"; "tcp"; "dst_port"; "80"; "action"; "drop"]
    = Ok rule /\
    length (matches rule) = KEFIR_MAX_MATCH_PER_RULE /\
    length (match_list (matches rule)) <= KEFIR_MAX_MATCH_PER_RULE.
Proof.
  eexists. split; [reflexivity|].
  pose proof (@counted_rule_matches kefir_codec calloc_some
    ["protocol"; "ip"; "ip_proto"; "tcp"; "dst_port"; "80"; "action"; "drop"]
    _ eq_refl) as (Hslots & Hcount & _).
  split; assumption.
Defined.

Lemma accepted_rule_token_count_witness :
  6 <= length ["protocol"; "ip"; "flower"; "vlan_id"; "5"; "action"; "drop"].
Proof.
  exact (proj1 (proj2 (@accepted_rule_token_count kefir_codec calloc_some
    ["protocol"; "ip"; "flower"; "vlan_id"; "5"; "action"; "drop"] _ eq_refl))).
Defined.

Lemma flower_keyword_skipped_witness :
  parse_with_room_u32
    ["protocol"; "ip"; "flower"; "vlan_id"; "5"; "action"; "drop"]
  = parse_with_room_u32 ["protocol"; "ip"; "vlan_id"; "5"; "action"; "drop"] /\
  parse_with_room_u32
    ["protocol"; "ip"; "flower"; "flower"; "vlan_id"; "5"; "action"; "drop"]
  = Err (UnsupportedMatchKeyword "flower").
Proof.
  split.
  - apply (proj1 (@flower_keyword_skipped kefir_codec calloc_some)).
    + simpl. lia.
    + discriminate.
  - apply (proj2 (@flower_keyword_skipped kefir_codec calloc_some) "ip"
             TCFLOWER_ETH_PROTO_IPV4).
    + reflexivity.
    + reflexivity.
Defined.

Lemma first_failing_clause_witness :
  parse_with_room_u32
    (rule_tokens "ip" false [("dst_port", "80")]
       ["vlan_id"; "4096"; "action"; "drop"]) = Err (MalformedValue "4096").
Proof.
  apply (@first_failing_clause kefir_codec calloc_some "ip"
           TCFLOWER_ETH_PROTO_IPV4 false [("dst_port", "80")]
           [u16_match KEFIR_MATCH_TYPE_IP_4_L4PORT_DST 80]).
  - reflexivity.
  - repeat constructor.
  - simpl. unfold KEFIR_MAX_MATCH_PER_RULE. lia.
  - reflexivity.
  - discriminate.
  - intros _. discriminate.
  - simpl. lia.
  - reflexivity.
Defined.

Lemma tokens_after_action_witness :
  parse_with_room_u32
    (rule_tokens "ip" false [("vlan_id", "5")] ["action"; "drop"; "now"]) =
  Err (UnsupportedMatchKeyword "action").
Proof.
  apply (@tokens_after_action kefir_codec calloc_some "ip"
           TCFLOWER_ETH_PROTO_IPV4 false [("vlan_id", "5")]
           [u16_match KEFIR_MATCH_TYPE_VLAN_ID 5]).
  - reflexivity.
  - repeat constructor.
  - simpl. unfold KEFIR_MAX_MATCH_PER_RULE. lia.
  - simpl. lia.
  - reflexivity.
Defined.

Lemma bounded_arrays_agree_witness :
  parse_with_room_u32
    ["protocol"; "ip"; "ip_proto"; "tcp"; "dst_port"; "80"; "action"; "drop"]
  = parse_with_room
    ["protocol"; "ip"; "ip_proto"; "tcp"; "dst_port"; "80"; "action"; "drop"].
Proof.
  apply (@bounded_arrays_agree kefir_codec calloc_some). reflexivity.
Defined.

Lemma returned_rule_invariants_witness :
  exists rule,
    parse_with_room_u32
      ["protocol"; "ip"; "ip_proto"; "tcp"; "dst_port"; "80"; "action"; "drop"]
    = Ok rule /\
    forall m, m ∈ matches rule ->
      flags m = 0%Z /\ max_value m = zero_bytes 16 /\
      comp_operator m = OPER_EQUAL.
Proof.
  eexists. split; [reflexivity|].
  exact (proj2 (proj2 (@returned_rule_invariants kefir_codec calloc_some
    ["protocol"; "ip"; "ip_proto"; "tcp"; "dst_port"; "80"; "action"; "drop"]
    _ eq_refl))).
Defined.
